(** * Adversarial patch training loop ([train_patch.py])

    A shallow embedding of [PatchTrainer] and of the statements the
    specification makes about it.

    Conventions.
    - The losses, the learning rate and the probabilities the extractor
      answers are rationals ([Q]): their arithmetic is modelled exactly,
      without rounding.
    - A tensor is a shape and a flat, row-major buffer of floats; a float
      is a rational or NaN ([Float]).  Infinities are left out: every
      operation of this file on a buffer (the clamp) treats them as the
      large numbers they stand for.
    - Tensors that Python shares by reference (the detector's parameters, the
      patch held both by [train] and by the optimizer) live in a heap indexed
      by position; objects hold positions.
    - The program's effects are threaded through a state-and-exception monad:
      the heap, the mutable fields of [cfg], the outside world (random
      generators, clock, data loader) and the log of everything written to
      the console, the file system and the metrics writer.
    - Code that is not in [train_patch.py] (the detector, the patch
      transformer and applier, the loss modules, autograd, Adam, PIL) is a
      field of [Externals]: an arbitrary function that may read and advance
      the world but cannot reach the heap or the log. *)

From Stdlib Require Import QArith Qminmax Lqa Ascii DecimalString DecimalNat DecimalFacts Sorted.
From stdpp Require Import list strings.

Set Default Proof Using "Type*".
Set Warnings "-abstract-large-number".

(** ** Scalars and tensors *)

(** An element of a tensor: a number or NaN. *)
Inductive Float :=
| Num (q : Q)
| NaN.

Coercion Num : Q >-> Float.

(** Addition, as it propagates NaN. *)
Definition Fadd (a b : Float) : Float :=
  match a, b with
  | Num x, Num y => Num (x + y)
  | _, _ => NaN
  end.

Record Tensor := mkTensor { shape : list nat; data : list Float }.

Definition numel (sh : list nat) : nat := foldr Nat.mul 1%nat sh.

(** [torch.full(sh, v)] *)
Definition full (sh : list nat) (v : Float) : Tensor :=
  mkTensor sh (repeat v (numel sh)).

(** [torch.tensor([v])] *)
Definition tensor1 (v : Float) : Tensor := mkTensor [1%nat] [v].

Definition Qsum (l : list Q) : Q := foldr Qplus 0%Q l.

Definition Qlen {A} (l : list A) : Q := inject_Z (Z.of_nat (length l)).

(** [torch.mean] of the probabilities the extractor answers; on an empty
    buffer torch answers nan, a value [Q] does not have, and the division
    below answers 0. *)
Definition mean (max_prob : list Q) : Q := (Qsum max_prob / Qlen max_prob)%Q.

(** [x.clamp(lo, hi)] on one element and [t.clamp_(lo, hi)] on a buffer: a
    number is brought into [[lo, hi]], NaN stays NaN. *)
Definition clamp (lo hi : Q) (x : Float) : Float :=
  match x with
  | Num q => Num (Qmin (Qmax q lo) hi)
  | NaN => NaN
  end.

Definition clamp_ (lo hi : Q) (t : Tensor) : Tensor :=
  mkTensor (shape t) (map (clamp lo hi) (data t)).

(** [t[i, ...]]: the [i]-th slice along the first dimension, [None] where
    Python raises [IndexError]. *)
Definition index0 (t : Tensor) (i : nat) : option Tensor :=
  match shape t with
  | [] => None
  | n :: rest =>
      if (i <? n)%nat
      then Some (mkTensor rest (take (numel rest) (drop (i * numel rest) (data t))))
      else None
  end.

(** Buffer of a [c x h x w] tensor whose element at [(k, y, x)] is [f k y x]. *)
Definition tabulate3 (c h w : nat) (f : nat -> nat -> nat -> Float) : list Float :=
  k ← seq 0 c; y ← seq 0 h; x ← seq 0 w; [f k y x].


(** What [clamp(0, 1)] leaves: a number of [[0, 1]], or NaN. *)
Definition in_unit_or_nan (x : Float) : Prop :=
  match x with
  | Num q => (0 <= q /\ q <= 1)%Q
  | NaN => True
  end.

(** ** Strings and paths *)

(** [str(n)] for a non-negative integer, as f-strings print it. *)
Definition str_nat (n : nat) : string := NilEmpty.string_of_uint (Nat.to_uint n).

Definition ends_with_sep (s : string) : bool :=
  match String.rev s with
  | String c _ => if Ascii.eqb c "/"%char then true else false
  | EmptyString => false
  end.

Definition is_abs (s : string) : bool :=
  match s with
  | String c _ => if Ascii.eqb c "/"%char then true else false
  | EmptyString => false
  end.

(** [os.path.join(a, b)] (posixpath): an absolute [b] discards [a]; a
    separator is added unless [a] is empty or already ends with one. *)
Definition osp_join (a b : string) : string :=
  if is_abs b then b
  else if ends_with_sep a then a +:+ b
  else if String.eqb a "" then b
  else a +:+ "/" +:+ b.

(** ** Configuration

    The fields of [cfg] that [train_patch.py] reads.  [loss_target] and
    [log_dir] are reassigned by the program and also live in the state. *)

Record Config := {
  patch_size : nat * nat;
  patch_name : string;
  log_dir : string;
  tensorboard_port : nat;
  debug_mode : bool;
  loss_target : string;
  patch_src : string;
  start_lr : Q;
  n_epochs : nat;
  min_tv_loss : Q;
  model_in_sz : nat * nat;
  transform_patches : bool;
  rotate_patches : bool;
  use_amp : bool;
  nps_mult : Q;
  tv_mult : Q
}.

(** ** Loss-target rules (lines 124-134) *)

Inductive LossRule := RuleObj | RuleCls | RuleObjCls.

(** The three lambdas of lines 127, 129 and 131. *)
Definition rule_fn (r : LossRule) (obj cls : Q) : Q :=
  match r with
  | RuleObj => obj
  | RuleCls => cls
  | RuleObjCls => (obj * cls)%Q
  end.

(** [cfg.loss_target] holds the configured string until [train] replaces it
    by the selected function. *)
Inductive LossTarget :=
| TargetStr (s : string)
| TargetFn (r : LossRule).

(** The [if]/[elif] chain of lines 126-134; [None] is the [else] branch. *)
Definition select_loss_target (s : string) : option LossRule :=
  if String.eqb s "obj" then Some RuleObj
  else if String.eqb s "cls" then Some RuleCls
  else if String.eqb s "obj * cls" then Some RuleObjCls
  else None.

(** ** Heap objects *)

(** A leaf tensor: [.data], [.requires_grad] and [.grad]. *)
Record Param := mkParam {
  p_data : Tensor;
  requires_grad : bool;
  p_grad : option (list Float)
}.

Definition set_requires_grad (b : bool) (p : Param) : Param :=
  mkParam (p_data p) b (p_grad p).

Definition set_grad (g : option (list Float)) (p : Param) : Param :=
  mkParam (p_data p) (requires_grad p) g.

Definition set_data (t : Tensor) (p : Param) : Param :=
  mkParam t (requires_grad p) (p_grad p).

(** Gradient accumulation of [backward]: [.grad] is created on first use and
    added to afterwards. *)
Definition accumulate (old : option (list Float)) (g : list Float) : list Float :=
  match old with
  | None => g
  | Some g0 => zip_with Fadd g0 g
  end.

(** ** Events and exceptions

    What the program writes, in order: directories and files, console lines,
    the composite image debug mode saves at line 176, the patch image saved
    at line 224, and the calls on the metrics writer: its creation,
    [add_text], [add_scalar] and [add_image].  [JsonDump] is the file of
    lines 121-122 opened and written; [JsonDumpFailed] is that file opened
    for writing and left incomplete by a dump that raised. *)

Inductive Event :=
| Makedirs (path : string)
| JsonDump (path : string)
| JsonDumpFailed (path : string)
| Print (line : string)
| OpenWriter (dir : option string)
| AddText (tag : string) (text : string)
| SaveDebugImg (path : string) (img : Tensor)
| SavePatchImg (path : string) (img : Tensor)
| AddScalar (tag : string) (value : Q) (step : nat)
| AddImage (tag : string) (img : Tensor) (step : nat).

Inductive Exn :=
| NotImplementedError (msg : string)
| IndexError
| ZeroDivisionError
| UnboundLocalError
| TypeError
| ValueError
| Dangling (id : nat).

Inductive Res (A : Type) :=
| Ok (a : A)
| Raise (e : Exn).
Arguments Ok {A} a.
Arguments Raise {A} e.

(** ** Learning-rate scheduler

    [torch.optim.lr_scheduler.ReduceLROnPlateau] as line 147 builds it: mode
    ['min'], the given patience, and the library's defaults for the rest
    (factor 0.1, relative threshold 1e-4, no cooldown, minimal rate 0,
    eps 1e-8). *)

Module ReduceLROnPlateau.

Definition factor : Q := 1 # 10.
Definition threshold : Q := 1 # 10000.
Definition cooldown : nat := 0.
Definition min_lr : Q := 0.
Definition eps : Q := 1 # 100000000.

(** [best = None] is the initial [inf]. *)
Record t := mk {
  patience : nat;
  best : option Q;
  num_bad_epochs : nat;
  cooldown_counter : nat;
  last_epoch : nat
}.

Definition init (patience : nat) : t := mk patience None 0 0 0.

Definition Qltb (a b : Q) : bool := negb (Qle_bool b a).

(** [is_better] for mode ['min'] with a relative threshold. *)
Definition is_better (a : Q) (best : option Q) : bool :=
  match best with
  | None => true
  | Some b => Qltb a (b * (1 - threshold))
  end.

(** [_reduce_lr] on the only parameter group. *)
Definition reduce_lr (old_lr : Q) : Q :=
  let new_lr := Qmax (old_lr * factor) min_lr in
  if Qltb eps (old_lr - new_lr) then new_lr else old_lr.

(** [step(metrics)]: returns the scheduler and the optimizer's rate. *)
Definition step (s : t) (lr : Q) (metrics : Q) : t * Q :=
  let epoch := S (last_epoch s) in
  let '(best1, bad1) :=
    if is_better metrics (best s) then (Some metrics, 0%nat)
    else (best s, S (num_bad_epochs s)) in
  let '(cool2, bad2) :=
    if (0 <? cooldown_counter s)%nat then (pred (cooldown_counter s), 0%nat)
    else (cooldown_counter s, bad1) in
  if (patience s <? bad2)%nat
  then (mk (patience s) best1 0 cooldown epoch, reduce_lr lr)
  else (mk (patience s) best1 bad2 cool2 epoch, lr).

(** The rate after each of the steps fed with [ms], and the scheduler at the
    end. *)
Fixpoint rates (s : t) (lr : Q) (ms : list Q) : list Q :=
  match ms with
  | [] => []
  | m :: ms' => let '(s', lr') := step s lr m in lr' :: rates s' lr' ms'
  end.

Fixpoint feed (s : t) (lr : Q) (ms : list Q) : t * Q :=
  match ms with
  | [] => (s, lr)
  | m :: ms' => let '(s', lr') := step s lr m in feed s' lr' ms'
  end.

End ReduceLROnPlateau.

(** ** The program *)

Section Program.

Context {World OptState : Type}.

(** A call into code outside this file. *)
Definition Ext (A : Type) : Type := World -> A * World.

Record Externals := {
  (** [time.strftime("%Y%m%d-%H%M%S")] *)
  strftime : Ext string;
  (** [is_port_in_use(port)] *)
  is_port_in_use : nat -> Ext bool;
  (** [tboard.configure(...)] then [tboard.launch()]: the url *)
  tensorboard_launch : string -> nat -> Ext string;
  (** [[(key, str(val)) for key, val in cfg.items()]], for [cfg] with the
      [log_dir] given: line 74 runs after line 71 has renamed it *)
  cfg_items : Config -> string -> list (string * string);
  (** the parameters of [DetectMultiBackend(cfg.weights_file, ...)] *)
  load_weights : Ext (list Param);
  (** [len(self.train_loader)] *)
  loader_len : nat;
  (** one item of [enumerate(self.train_loader)]: images and labels *)
  next_batch : Ext (Tensor * Tensor);
  (** [self.patch_transformer(adv_patch, lab_batch, model_in_sz,
      do_transforms, do_rotate, rand_loc)] *)
  patch_transformer :
    Tensor -> Tensor -> nat * nat -> bool -> bool -> bool -> Ext Tensor;
  (** [self.patch_applier(img_batch, adv_batch_t)] *)
  patch_applier : Tensor -> Tensor -> Ext Tensor;
  (** [F.interpolate(p_img_batch, size)] *)
  interpolate : Tensor -> nat * nat -> Ext Tensor;
  (** [self.model(p_img_batch)[0]], under autocast when [use_amp] *)
  model_forward : bool -> list Tensor -> Tensor -> Ext Tensor;
  (** [self.prob_extractor(output)], which calls [cfg.loss_target]: the
      maximal probabilities, one for each image *)
  prob_extractor : (Q -> Q -> Q) -> Tensor -> Ext (list Q);
  (** [self.nps_loss(adv_patch)] and [self.tv_loss(adv_patch)] *)
  nps_loss : Tensor -> Ext Q;
  tv_loss : Tensor -> Ext Q;
  (** the gradient [loss.backward()] adds to a leaf of the graph *)
  autograd : Q -> nat -> Ext (list Float);
  (** Adam (amsgrad) on one parameter: state, rate, data, gradient *)
  adam_update : option OptState -> Q -> Tensor -> list Float -> OptState * Tensor;
  (** one sample of [torch.rand] *)
  torch_rand : Ext Q;
  (** [Image.open(path).convert('RGB')], as a [3 x H x W] tensor *)
  image_open_rgb : string -> Ext Tensor;
  (** the value [transforms.Resize((h, w))] then [ToTensor] give at channel
      [k], row [y], column [x] of the resized image *)
  resized_pixel : Tensor -> nat -> nat -> nat -> nat -> nat -> Q
}.

Variable E : Externals.

(** *** State, exceptions, log *)

Record St := mkSt {
  world : World;
  heap : list Param;
  cfg_loss_target : LossTarget;
  cfg_log_dir : string;
  log : list Event
}.

Definition M (A : Type) : Type := St -> Res A * St.

Definition ret {A} (a : A) : M A := fun s => (Ok a, s).

Definition bind {A B} (m : M A) (k : A -> M B) : M B :=
  fun s =>
    match m s with
    | (Ok a, s1) => k a s1
    | (Raise e, s1) => (Raise e, s1)
    end.

Definition raise {A} (e : Exn) : M A := fun s => (Raise e, s).

Definition ext {A} (f : Ext A) : M A :=
  fun s =>
    let '(a, w) := f (world s) in
    (Ok a, mkSt w (heap s) (cfg_loss_target s) (cfg_log_dir s) (log s)).

Definition emit (e : Event) : M unit :=
  fun s =>
    (Ok tt, mkSt (world s) (heap s) (cfg_loss_target s) (cfg_log_dir s) (log s ++ [e])).

Definition get_loss_target : M LossTarget := fun s => (Ok (cfg_loss_target s), s).

Definition set_loss_target (t : LossTarget) : M unit :=
  fun s => (Ok tt, mkSt (world s) (heap s) t (cfg_log_dir s) (log s)).

Definition get_log_dir : M string := fun s => (Ok (cfg_log_dir s), s).

Definition set_log_dir (d : string) : M unit :=
  fun s => (Ok tt, mkSt (world s) (heap s) (cfg_loss_target s) d (log s)).

(** A new tensor object; its identity is its position in the heap. *)
Definition alloc (p : Param) : M nat :=
  fun s =>
    (Ok (length (heap s)),
     mkSt (world s) (heap s ++ [p]) (cfg_loss_target s) (cfg_log_dir s) (log s)).

Definition read (id : nat) : M Param :=
  fun s =>
    match heap s !! id with
    | Some p => (Ok p, s)
    | None => (Raise (Dangling id), s)
    end.

(** In-place update of the object at [id]. *)
Definition modify (id : nat) (f : Param -> Param) : M unit :=
  fun s =>
    match heap s !! id with
    | Some p =>
        (Ok tt,
         mkSt (world s) (<[id := f p]> (heap s)) (cfg_loss_target s)
              (cfg_log_dir s) (log s))
    | None => (Raise (Dangling id), s)
    end.

Notation "'let*' x ':=' m 'in' k" := (bind m (fun x => k))
  (at level 10, x pattern, m at level 100, k at level 200).

Notation "m1 '>>' m2" := (bind m1 (fun _ => m2))
  (at level 100, m2 at level 200, right associativity).

(** [for i in range(i0, i0 + n)] with the loop-carried variables in [a]. *)
Fixpoint for_range {A} (n i0 : nat) (body : nat -> A -> M A) (a : A) : M A :=
  match n with
  | O => ret a
  | S n' => let* a' := body i0 a in for_range n' (S i0) body a'
  end.

(** [for x in xs] *)
Fixpoint for_each {A} (xs : list A) (body : A -> M unit) : M unit :=
  match xs with
  | [] => ret tt
  | x :: xs' => body x >> for_each xs' body
  end.

Fixpoint alloc_all (ps : list Param) : M (list nat) :=
  match ps with
  | [] => ret []
  | p :: ps' =>
      let* id := alloc p in
      let* ids := alloc_all ps' in
      ret (id :: ids)
  end.

Fixpoint read_all (ids : list nat) : M (list Tensor) :=
  match ids with
  | [] => ret []
  | id :: ids' =>
      let* p := read id in
      let* ts := read_all ids' in
      ret (p_data p :: ts)
  end.

(** *** [PatchTrainer.__init__] (lines 52-89) *)

(** What [self] keeps for [train]: the identities of the detector's
    parameters and [self.epoch_length]. *)
Record Trainer := {
  model_params : list nat;
  epoch_length : nat
}.

Definition initial_state (cfg : Config) (w : World) : St :=
  mkSt w [] (TargetStr (loss_target cfg)) (log_dir cfg) [].

Definition max_port : nat := 65535.

(** The loop of lines 96-98: [d] is [max_port - port], the number of ports
    left to try; the message prints the new port twice, as the source
    does. *)
Fixpoint probe_ports (d port : nat) : M nat :=
  let* used := ext (is_port_in_use E port) in
  if used && (port <? max_port)%nat then
    match d with
    | S d' =>
        let port := S port in
        emit (Print ("Port " +:+ str_nat port +:+ " is currently in use. Switching to "
                     +:+ str_nat port +:+ " for tensorboard logging")) >>
        probe_ports d' port
    | O => ret port
    end
  else ret port.

(** [init_tensorboard] (lines 91-107) *)
Definition init_tensorboard (dir : string) (port : nat) (run_tb : bool) : M unit :=
  (if run_tb then
     let* port := probe_ports (max_port - port) port in
     let* url := ext (tensorboard_launch E dir port) in
     emit (Print ("Tensorboard logger started on " +:+ url))
   else ret tt) >>
  emit (OpenWriter (if String.eqb dir "" then None else Some dir)).

(** Lines 56-57 load the detector, 66-68 freeze it, 71 renames the log
    directory, 72-75 start the metrics writer and give it the
    configuration, 89 records the loader's length.  The modules of lines
    59-64 and the loader of 78-88 are external objects and have no state
    here; their constructors are taken to return (the loader's does not on
    an empty data set), so this is [__init__] on the runs where they do. *)
Definition init (cfg : Config) : M Trainer :=
  let* weights := ext (load_weights E) in
  let* ids := alloc_all weights in
  for_each ids (fun id => modify id (set_requires_grad false)) >>
  let* stamp := ext (strftime E) in
  let* dir := get_log_dir in
  set_log_dir (osp_join dir (stamp +:+ "_" +:+ patch_name cfg)) >>
  let* dir := get_log_dir in
  init_tensorboard dir (tensorboard_port cfg) true >>
  for_each (cfg_items E cfg dir) (fun kv => emit (AddText kv.1 kv.2)) >>
  ret {| model_params := ids; epoch_length := loader_len E |}.

(** *** [generate_patch] and [read_image] (lines 228-254) *)

Fixpoint rand_buffer (n : nat) : M (list Float) :=
  match n with
  | O => ret []
  | S n' =>
      let* x := ext (torch_rand E) in
      let* xs := rand_buffer n' in
      ret (Num x :: xs)
  end.

Definition generate_patch (cfg : Config) (patch_type : string) : M Tensor :=
  let '(p_w, p_h) := patch_size cfg in
  if String.eqb patch_type "gray" then ret (full [3; p_h; p_w] (1 # 2))
  else if String.eqb patch_type "random" then
    let* buf := rand_buffer (numel [3; p_h; p_w]) in
    ret (mkTensor [3; p_h; p_w] buf)
  else raise UnboundLocalError.

(** [transforms.Resize(size)] reads a pair as (height, width); [ToTensor]
    lays the image out as channels x height x width.  The file is taken to
    be there and to hold an image: this is [read_image] on the runs where
    [Image.open] returns. *)
Definition read_image (cfg : Config) (path : string) : M Tensor :=
  let* patch_img := ext (image_open_rgb E path) in
  let '(h, w) := patch_size cfg in
  ret (mkTensor [3; h; w]
         (tabulate3 3 h w (fun k y x => Num (resized_pixel E patch_img h w k y x)))).

(** *** The optimizer (lines 145-146, 192-193) *)

Record Optimizer := mkOpt {
  opt_params : list nat;
  lr : Q;
  opt_state : list (nat * OptState)
}.

Definition state_of (o : Optimizer) (id : nat) : option OptState :=
  snd <$> find (fun kv => Nat.eqb (fst kv) id) (opt_state o).

Definition set_state (o : Optimizer) (id : nat) (st : OptState) : Optimizer :=
  mkOpt (opt_params o) (lr o)
        ((id, st) :: filter (fun kv => fst kv ≠ id) (opt_state o)).

Definition set_lr (o : Optimizer) (r : Q) : Optimizer :=
  mkOpt (opt_params o) r (opt_state o).

(** [optim.Adam(params, lr=lr, amsgrad=True)]: a negative rate is refused
    with [ValueError]. *)
Definition Adam (params : list nat) (rate : Q) : M Optimizer :=
  if Qle_bool 0 rate then ret (mkOpt params rate []) else raise ValueError.

(** [optimizer.step()]: parameters without a gradient are skipped. *)
Fixpoint optimizer_step_on (ids : list nat) (o : Optimizer) : M Optimizer :=
  match ids with
  | [] => ret o
  | id :: ids' =>
      let* p := read id in
      match p_grad p with
      | None => optimizer_step_on ids' o
      | Some g =>
          let '(st, d) := adam_update E (state_of o id) (lr o) (p_data p) g in
          modify id (set_data d) >>
          optimizer_step_on ids' (set_state o id st)
      end
  end.

Definition optimizer_step (o : Optimizer) : M Optimizer :=
  optimizer_step_on (opt_params o) o.

(** [optimizer.zero_grad(set_to_none=True)] *)
Definition zero_grad (o : Optimizer) : M unit :=
  for_each (opt_params o) (fun id => modify id (set_grad None)).

(** [loss.backward()]: every leaf of the graph that requires a gradient
    receives one. *)
Definition backward (loss : Q) (leaves : list nat) : M unit :=
  for_each leaves (fun id =>
    let* p := read id in
    if requires_grad p then
      let* g := ext (autograd E loss id) in
      modify id (set_grad (Some (accumulate (p_grad p) g)))
    else ret tt).

(** *** [PatchTrainer.train] (lines 109-226) *)

(** The named losses of one batch (lines 184-188). *)
Record Losses := mkLosses {
  loss : Q;
  det_loss : Q;
  nps_loss_w : Q;
  tv_loss_w : Q
}.

Definition newline : string := String (ascii_of_nat 10) "".

(** [f"{self.cfg.patch_name}_epoch_{epoch}.jpg"] (line 153) *)
Definition patch_file_name (name : string) (epoch : nat) : string :=
  name +:+ "_epoch_" +:+ str_nat epoch +:+ ".jpg".

(** Lines 157-188: one batch through the transform, the detector and the
    three losses.  [torch.tensor([0])] stands in for a loss whose weight is
    zero. *)
Definition forward_losses (cfg : Config) (tr : Trainer) (adv_patch_cpu : nat)
    (min_tv_loss : Q) (i_batch : nat) : M Losses :=
  let* (img_batch, lab_batch) := ext (next_batch E) in
  let* p := read adv_patch_cpu in
  let adv_patch := p_data p in
  let* adv_batch_t :=
    ext (patch_transformer E adv_patch lab_batch (model_in_sz cfg)
           (transform_patches cfg) (rotate_patches cfg) false) in
  let* p_img_batch := ext (patch_applier E img_batch adv_batch_t) in
  let* p_img_batch := ext (interpolate E p_img_batch (model_in_sz cfg)) in
  (if debug_mode cfg then
     match index0 p_img_batch 1 with
     | None => raise IndexError
     | Some img =>
         let* dir := get_log_dir in
         emit (SaveDebugImg (osp_join (osp_join dir "patch_applied_imgs")
                          ("b_" +:+ str_nat i_batch +:+ ".jpg")) img)
     end
   else ret tt) >>
  let* weights := read_all (model_params tr) in
  let* output := ext (model_forward E (use_amp cfg) weights p_img_batch) in
  let* target := get_loss_target in
  let* max_prob :=
    match target with
    | TargetFn r => ext (prob_extractor E (rule_fn r) output)
    | TargetStr _ => raise TypeError
    end in
  let* nps :=
    if negb (Qeq_bool (nps_mult cfg) 0) then ext (nps_loss E adv_patch)
    else ret 0%Q in
  let* tv :=
    if negb (Qeq_bool (tv_mult cfg) 0) then ext (tv_loss E adv_patch)
    else ret 0%Q in
  let nps_loss := (nps * nps_mult cfg)%Q in
  let tv_loss := Qmax (tv * tv_mult cfg) min_tv_loss in
  let det_loss := mean max_prob in
  let loss := (det_loss + nps_loss + tv_loss)%Q in
  ret (mkLosses loss det_loss nps_loss tv_loss).

(** Lines 191-195: backward, Adam step, gradients dropped, patch clamped. *)
Definition update_patch (tr : Trainer) (adv_patch_cpu : nat) (o : Optimizer)
    (l : Losses) : M Optimizer :=
  backward (loss l) (adv_patch_cpu :: model_params tr) >>
  let* o' := optimizer_step o in
  zero_grad o' >>
  modify adv_patch_cpu (fun p => set_data (clamp_ 0 1 (p_data p)) p) >>
  ret o'.

(** Lines 197-212: the metrics of every fifteenth batch. *)
Definition write_metrics (tr : Trainer) (adv_patch_cpu : nat) (o : Optimizer)
    (l : Losses) (epoch i_batch : nat) : M unit :=
  if (i_batch mod 15 =? 0)%nat then
    let iteration := (epoch_length tr * epoch + i_batch)%nat in
    emit (AddScalar "total_loss" (loss l) iteration) >>
    emit (AddScalar "loss/det_loss" (det_loss l) iteration) >>
    emit (AddScalar "loss/nps_loss" (nps_loss_w l) iteration) >>
    emit (AddScalar "loss/tv_loss" (tv_loss_w l) iteration) >>
    emit (AddScalar "misc/epoch" (inject_Z (Z.of_nat epoch)) iteration) >>
    emit (AddScalar "misc/learning_rate" (lr o) iteration) >>
    let* p := read adv_patch_cpu in
    emit (AddImage "patch" (p_data p) iteration)
  else ret tt.

(** The body of the loop of line 157; the loop carries the optimizer and
    [ep_loss]. *)
Definition batch_step (cfg : Config) (tr : Trainer) (adv_patch_cpu : nat)
    (min_tv_loss : Q) (epoch i_batch : nat) (acc : Optimizer * Q)
    : M (Optimizer * Q) :=
  let '(o, ep_loss) := acc in
  let* l := forward_losses cfg tr adv_patch_cpu min_tv_loss i_batch in
  let ep_loss := (ep_loss + loss l)%Q in
  let* o' := update_patch tr adv_patch_cpu o l in
  write_metrics tr adv_patch_cpu o' l epoch i_batch >>
  (if (loader_len E <=? i_batch + 1)%nat then emit (Print newline) else ret tt) >>
  ret (o', ep_loss).

(** The body of the loop of line 150; the loop carries the optimizer and the
    scheduler. *)
Definition train_epoch (cfg : Config) (tr : Trainer) (patch_dir : string)
    (adv_patch_cpu : nat) (epoch : nat)
    (acc : Optimizer * ReduceLROnPlateau.t)
    : M (Optimizer * ReduceLROnPlateau.t) :=
  let '(o, scheduler) := acc in
  emit (Print (str_nat epoch)) >>
  let out_patch_path := osp_join patch_dir (patch_file_name (patch_name cfg) epoch) in
  let min_tv_loss := min_tv_loss cfg in
  let* (o, ep_loss) :=
    for_range (loader_len E) 0
      (batch_step cfg tr adv_patch_cpu min_tv_loss epoch) (o, 0%Q) in
  if (loader_len E =? 0)%nat then raise ZeroDivisionError
  else
    let ep_loss := (ep_loss / inject_Z (Z.of_nat (loader_len E)))%Q in
    let '(scheduler, rate) := ReduceLROnPlateau.step scheduler (lr o) ep_loss in
    let o := set_lr o rate in
    (if (epoch mod 1 =? 0)%nat then
       let* p := read adv_patch_cpu in
       emit (SavePatchImg out_patch_path (p_data p))
     else ret tt) >>
    ret (o, scheduler).

(** Lines 121-122: [cfg.json] is opened for writing and [cfg] dumped into
    it.  A function in [cfg.loss_target] cannot be serialised: [json.dump]
    raises [TypeError] and leaves the file incomplete.  The dump answers
    the loss target it has written. *)
Definition dump_cfg (path : string) : M string :=
  let* target := get_loss_target in
  match target with
  | TargetStr loss_target => emit (JsonDump path) >> ret loss_target
  | TargetFn _ => emit (JsonDumpFailed path) >> raise TypeError
  end.

(** Lines 124-134, for the string line 125 reads: the one that was dumped,
    nothing in between assigns [cfg.loss_target]. *)
Definition fix_loss_target (loss_target : string) : M unit :=
  match select_loss_target loss_target with
  | Some r => set_loss_target (TargetFn r)
  | None =>
      raise (NotImplementedError
               ("Loss target " +:+ loss_target +:+ " not been implemented"))
  end.

(** Lines 136-143. *)
Definition init_patch (cfg : Config) : M nat :=
  let* t :=
    if String.eqb (patch_src cfg) "gray" then generate_patch cfg "gray"
    else if String.eqb (patch_src cfg) "random" then generate_patch cfg "random"
    else read_image cfg (patch_src cfg) in
  let* adv_patch_cpu := alloc (mkParam t false None) in
  modify adv_patch_cpu (set_requires_grad true) >>
  ret adv_patch_cpu.

Definition train (cfg : Config) (tr : Trainer) : M unit :=
  let* dir := get_log_dir in
  let patch_dir := osp_join dir "patches" in
  emit (Makedirs patch_dir) >>
  (if debug_mode cfg then emit (Makedirs (osp_join dir "patch_applied_imgs"))
   else ret tt) >>
  let* loss_target := dump_cfg (osp_join dir "cfg.json") in
  fix_loss_target loss_target >>
  let* adv_patch_cpu := init_patch cfg in
  let* optimizer := Adam [adv_patch_cpu] (start_lr cfg) in
  let scheduler := ReduceLROnPlateau.init 50 in
  for_range (n_epochs cfg) 0
    (train_epoch cfg tr patch_dir adv_patch_cpu) (optimizer, scheduler) >>
  ret tt.

(** [main] (lines 257-262), from the parsed configuration on. *)
Definition main (cfg : Config) : M unit :=
  let* trainer := init cfg in
  train cfg trainer.

End Program.

Arguments Externals : clear implicits.
Arguments St : clear implicits.
Arguments M : clear implicits.
Arguments Ext : clear implicits.
Arguments Optimizer : clear implicits.

(** * The notions the statements use *)

Section Notions.

Context {World OptState : Type} (E : Externals World OptState).

Implicit Types s : St World.

(** ** Running a computation

    [wp m Q QE s]: run from [s], [m] either returns [a] in a state with
    [Q a] or raises [e] in a state with [QE e]. *)

Definition wp {A} (m : M World A) (Q : A -> St World -> Prop)
    (QE : Exn -> St World -> Prop) s : Prop :=
  match m s with
  | (Ok a, s') => Q a s'
  | (Raise e, s') => QE e s'
  end.

(** ** What a run leaves alone

    [keeps pid s s']: from [s] to [s'] the mutable fields of [cfg] are the
    same, no tensor was created or lost, no [requires_grad] flag changed,
    and every tensor other than [pid] has the same data; a tensor other
    than [pid] that does not require a gradient is the same altogether. *)

Definition keeps (pid : nat) s s' : Prop :=
  cfg_loss_target s' = cfg_loss_target s /\
  cfg_log_dir s' = cfg_log_dir s /\
  length (heap s') = length (heap s) /\
  forall id p, heap s !! id = Some p ->
    exists p', heap s' !! id = Some p' /\
      requires_grad p' = requires_grad p /\
      (id <> pid -> p_data p' = p_data p /\ (requires_grad p = false -> p' = p)).

(** The heap and [cfg] are the same: only the world and the log moved. *)
Definition same_store s s' : Prop :=
  heap s' = heap s /\
  cfg_loss_target s' = cfg_loss_target s /\
  cfg_log_dir s' = cfg_log_dir s.

(** [quiet]: [keeps], and nothing was logged. *)
Definition quiet (pid : nat) s s' : Prop := keeps pid s s' /\ log s' = log s.

(** Every tensor of [s] is still there in [s'], with the same data and flag,
    and unchanged altogether if it does not require a gradient. *)
Definition untouched s s' : Prop :=
  forall id p, heap s !! id = Some p ->
    exists p', heap s' !! id = Some p' /\ p_data p' = p_data p /\
      requires_grad p' = requires_grad p /\ (requires_grad p = false -> p' = p).

(** The patch at [pid] holds values of [[0, 1]] only. *)
Definition patch_clamped (pid : nat) s : Prop :=
  exists p, heap s !! pid = Some p /\ Forall in_unit_or_nan (data (p_data p)).

(** The patch [x] that lines 136-143 make of [patch_src]: the gray fill and
    the noise are laid out as [3 x p_h x p_w] for [patch_size = (p_w, p_h)];
    the image read from a file comes out of [Resize] as
    [3 x patch_size[0] x patch_size[1]]. *)
Definition patch_of_source (cfg : Config) (x : Tensor) : Prop :=
  let '(a, b) := patch_size cfg in
  length (data x) = numel (shape x) /\
  if String.eqb (patch_src cfg) "gray" then x = full [3; b; a] (1 # 2)
  else if String.eqb (patch_src cfg) "random" then shape x = [3; b; a]
  else shape x = [3; a; b].


Definition with_heap s (h : list Param) : St World :=
  mkSt (world s) h (cfg_loss_target s) (cfg_log_dir s) (log s).

(** ** What a log says

    The steps under which a tag was written to the metrics writer, and the
    patch images saved, in order. *)

(** Events that are neither metrics nor saved patches. *)
Definition silent (e : Event) : Prop :=
  match e with
  | AddScalar _ _ _ | AddImage _ _ _ | SavePatchImg _ _ => False
  | _ => True
  end.

(** Events of the set-up of a run: directories and the dump of [cfg]. *)
Definition setup_event (e : Event) : Prop :=
  match e with
  | Makedirs _ | JsonDump _ => True
  | _ => False
  end.

Definition steps_of (tag : string) (evs : list Event) : list nat :=
  flat_map (fun e =>
    match e with
    | AddScalar t _ st | AddImage t _ st => if String.eqb t tag then [st] else []
    | _ => []
    end) evs.

Definition saved_patches (evs : list Event) : list (string * Tensor) :=
  flat_map (fun e =>
    match e with
    | SavePatchImg path img => [(path, img)]
    | _ => []
    end) evs.

Definition metric_tags : list string :=
  ["total_loss"; "loss/det_loss"; "loss/nps_loss"; "loss/tv_loss";
   "misc/epoch"; "misc/learning_rate"; "patch"].

(** The events of lines 199-212 for batch [i] of epoch [epoch]. *)
Definition metric_events (len epoch i : nat) (l : Losses) (rate : Q)
    (patch : Tensor) : list Event :=
  if (i mod 15 =? 0)%nat then
    let iteration := (len * epoch + i)%nat in
    [AddScalar "total_loss" (loss l) iteration;
     AddScalar "loss/det_loss" (det_loss l) iteration;
     AddScalar "loss/nps_loss" (nps_loss_w l) iteration;
     AddScalar "loss/tv_loss" (tv_loss_w l) iteration;
     AddScalar "misc/epoch" (inject_Z (Z.of_nat epoch)) iteration;
     AddScalar "misc/learning_rate" rate iteration;
     AddImage "patch" patch iteration]
  else [].

(** The batches of an epoch of [n] batches that write metrics, the steps
    they write under in epoch [epoch], and the steps of a run of [epochs]
    epochs. *)
Definition emission_indices (n : nat) : list nat :=
  List.filter (fun j => (j mod 15 =? 0)%nat) (seq 0 n).

Definition epoch_steps (len n epoch : nat) : list nat :=
  map (fun j => (len * epoch + j)%nat) (emission_indices n).

Definition run_steps (len n epochs : nat) : list nat :=
  flat_map (epoch_steps len n) (seq 0 epochs).

(** Where line 152 puts the patch of an epoch. *)
Definition patch_path (cfg : Config) (dir : string) (epoch : nat) : string :=
  osp_join (osp_join dir "patches") (patch_file_name (patch_name cfg) epoch).

(** ** The losses of a batch and of an epoch *)

(** What lines 184-188 make of the extracted probabilities and of the two
    patch losses: [l] is a decomposition for the patch [p], the rule [r] and
    the floor [floor]. *)
Definition losses_of (cfg : Config) (floor : Q) (p : Param) (r : LossRule)
    (l : Losses) : Prop :=
  exists output wx wn wt,
    det_loss l = mean (fst (prob_extractor E (rule_fn r) output wx)) /\
    (nps_loss_w l == fst (nps_loss E (p_data p) wn) * nps_mult cfg)%Q /\
    (tv_loss_w l == Qmax (fst (tv_loss E (p_data p) wt) * tv_mult cfg) floor)%Q /\
    loss l = (det_loss l + nps_loss_w l + tv_loss_w l)%Q /\
    (floor <= tv_loss_w l)%Q.

(** The total losses of the batches [i .. i + n - 1], as the forward pass
    computes them while the loop runs. *)
Fixpoint batch_totals (cfg : Config) (tr : Trainer) (pid : nat) (floor : Q)
    (epoch n i : nat) (acc : Optimizer OptState * Q) s : list Q :=
  match n with
  | O => []
  | S n' =>
      match forward_losses E cfg tr pid floor i s,
            batch_step E cfg tr pid floor epoch i acc s with
      | (Ok l, _), (Ok acc1, s1) =>
          loss l :: batch_totals cfg tr pid floor epoch n' (S i) acc1 s1
      | _, _ => []
      end
  end.

(** The totals of the batches of epoch [epoch], started in [s] with
    optimizer [o]. *)
Definition epoch_totals (cfg : Config) (tr : Trainer) (pid epoch : nat) o s
    : list Q :=
  batch_totals cfg tr pid (min_tv_loss cfg) epoch (loader_len E) 0 (o, 0%Q)
    (emit (Print (str_nat epoch)) s).2.

(** The same collaborators with another smoothness or printability loss. *)
Definition with_tv_loss (f : Tensor -> Ext World Q) : Externals World OptState :=
  {| strftime := strftime E; is_port_in_use := is_port_in_use E;
     tensorboard_launch := tensorboard_launch E; cfg_items := cfg_items E;
     load_weights := load_weights E;
     loader_len := loader_len E; next_batch := next_batch E;
     patch_transformer := patch_transformer E; patch_applier := patch_applier E;
     interpolate := interpolate E; model_forward := model_forward E;
     prob_extractor := prob_extractor E; nps_loss := nps_loss E;
     tv_loss := f; autograd := autograd E; adam_update := adam_update E;
     torch_rand := torch_rand E; image_open_rgb := image_open_rgb E;
     resized_pixel := resized_pixel E |}.

Definition with_nps_loss (f : Tensor -> Ext World Q) : Externals World OptState :=
  {| strftime := strftime E; is_port_in_use := is_port_in_use E;
     tensorboard_launch := tensorboard_launch E; cfg_items := cfg_items E;
     load_weights := load_weights E;
     loader_len := loader_len E; next_batch := next_batch E;
     patch_transformer := patch_transformer E; patch_applier := patch_applier E;
     interpolate := interpolate E; model_forward := model_forward E;
     prob_extractor := prob_extractor E; nps_loss := f;
     tv_loss := tv_loss E; autograd := autograd E; adam_update := adam_update E;
     torch_rand := torch_rand E; image_open_rgb := image_open_rgb E;
     resized_pixel := resized_pixel E |}.

(** ** More of what a log says *)

(** The paths of the composite images debug mode saved, the values written
    under a scalar tag, the images given to the metrics writer and the lines
    printed, in order. *)
Definition debug_paths (evs : list Event) : list string :=
  flat_map (fun e =>
    match e with
    | SaveDebugImg path _ => [path]
    | _ => []
    end) evs.

Definition scalars_of (tag : string) (evs : list Event) : list Q :=
  flat_map (fun e =>
    match e with
    | AddScalar t v _ => if String.eqb t tag then [v] else []
    | _ => []
    end) evs.

Definition patch_snapshots (evs : list Event) : list Tensor :=
  flat_map (fun e =>
    match e with
    | AddImage _ img _ => [img]
    | _ => []
    end) evs.

Definition console (evs : list Event) : list string :=
  flat_map (fun e =>
    match e with
    | Print line => [line]
    | _ => []
    end) evs.

(** The line of line 98 for the value [port] has after the increment. *)
Definition probe_message (port : nat) : string :=
  "Port " +:+ str_nat port +:+ " is currently in use. Switching to "
  +:+ str_nat port +:+ " for tensorboard logging".

(** Where line 176 saves the composite image of batch [i]. *)
Definition debug_image_path (dir : string) (i : nat) : string :=
  osp_join (osp_join dir "patch_applied_imgs") ("b_" +:+ str_nat i +:+ ".jpg").

(** Everything one batch writes (lines 173-176 and 197-214): the debug
    image if asked for, the metrics of every fifteenth batch, and the line
    after the last batch. *)
Definition batch_events (cfg : Config) (tr : Trainer) (dir : string)
    (epoch i : nat) (l : Losses) (rate : Q) (patch img : Tensor) : list Event :=
  (if debug_mode cfg then [SaveDebugImg (debug_image_path dir i) img] else []) ++
  metric_events (epoch_length tr) epoch i l rate patch ++
  (if (loader_len E <=? i + 1)%nat then [Print newline] else []).

(** [evs] is what batch [i] of epoch [epoch] writes, run at rate [rate],
    for some losses, some patch with values in [[0, 1]] and some debug
    image. *)
Definition batch_trace (cfg : Config) (tr : Trainer) (dir : string)
    (epoch : nat) (rate : Q) (i : nat) (evs : list Event) : Prop :=
  exists l patch img,
    Forall in_unit_or_nan (data patch) /\
    evs = batch_events cfg tr dir epoch i l rate patch img.

(** [evs] is what epoch [epoch] writes: its number, its batches, its patch
    image. *)
Definition epoch_trace (cfg : Config) (tr : Trainer) (dir patch_dir : string)
    (epoch : nat) (evs : list Event) : Prop :=
  exists rate bevs patch,
    Forall2 (batch_trace cfg tr dir epoch rate) (seq 0 (loader_len E)) bevs /\
    Forall in_unit_or_nan (data patch) /\
    evs = [Print (str_nat epoch)] ++ concat bevs ++
          [SavePatchImg (osp_join patch_dir (patch_file_name (patch_name cfg) epoch))
             patch].

(** What lines 115-122 write. *)
Definition setup_events (cfg : Config) (dir : string) : list Event :=
  [Makedirs (osp_join dir "patches")] ++
  (if debug_mode cfg then [Makedirs (osp_join dir "patch_applied_imgs")] else []) ++
  [JsonDump (osp_join dir "cfg.json")].

(** What they write when the dump of line 122 raises. *)
Definition failed_setup_events (cfg : Config) (dir : string) : list Event :=
  [Makedirs (osp_join dir "patches")] ++
  (if debug_mode cfg then [Makedirs (osp_join dir "patch_applied_imgs")] else []) ++
  [JsonDumpFailed (osp_join dir "cfg.json")].

End Notions.

(** * A small instance

    Collaborators simple enough to run: the world counts the calls made on
    it, the detector is the identity, the gradient is large enough to push
    the patch out of [[0, 1]], and an epoch has sixteen batches. *)

Module Example.

Definition tick {A} (a : A) : Ext nat A := fun w => (a, S w).

(** Subtraction, as it propagates NaN, and the number a float stands for in
    the toy detector. *)
Definition Fsub (a b : Float) : Float :=
  match a, b with
  | Num x, Num y => Num (x - y)
  | _, _ => NaN
  end.

Definition floats (l : list Q) : list Float := map Num l.

Definition number (v : Float) : Q :=
  match v with
  | Num q => q
  | NaN => 0
  end.

Definition collaborators : Externals nat unit := {|
  strftime := tick "20240101-000000";
  is_port_in_use := fun port => tick (port <? 6008)%nat;
  tensorboard_launch := fun _ port => tick ("http://localhost:" +:+ str_nat port +:+ "/")%string;
  cfg_items := fun cfg dir =>
    [("patch_name", patch_name cfg); ("log_dir", dir); ("loss_target", loss_target cfg)]%string;
  load_weights := tick [mkParam (mkTensor [2] (floats [1 # 3; 2 # 3])) true None];
  loader_len := 16;
  next_batch := tick (mkTensor [2; 1] (floats [0 # 1; 1 # 1]), mkTensor [2; 1] (floats [0 # 1; 1 # 1]));
  patch_transformer := fun p _ _ _ _ _ => tick p;
  patch_applier := fun img _ => tick img;
  interpolate := fun x _ => tick x;
  model_forward := fun _ _ x => tick x;
  prob_extractor := fun f x => tick (map (fun v => f (number v) (number v)) (data x));
  nps_loss := fun _ => tick (1 # 4);
  tv_loss := fun _ => tick (1 # 8);
  autograd := fun _ _ => tick (floats [5 # 1; -5 # 1; 5 # 1; -5 # 1; 5 # 1; -5 # 1]);
  adam_update := fun _ rate x g => (tt, mkTensor (shape x) (zip_with Fsub (data x) g));
  torch_rand := fun w => (inject_Z (Z.of_nat w) / 100, S w)%Q;
  image_open_rgb := fun _ => tick (mkTensor [3; 1; 1] (floats [0 # 1; 0 # 1; 0 # 1]));
  resized_pixel := fun _ _ _ _ _ _ => 1 # 2
|}.

Definition config : Config := {|
  patch_size := (2, 1); patch_name := "p"; log_dir := "runs";
  tensorboard_port := 6006;
  debug_mode := false; loss_target := "obj * cls"; patch_src := "gray";
  start_lr := 3 # 100; n_epochs := 2; min_tv_loss := 1 # 10;
  model_in_sz := (4, 4); transform_patches := true; rotate_patches := true;
  use_amp := false; nps_mult := 1 # 100; tv_mult := 5 # 2
|}.

(** The same run with the smoothness loss switched off and a negative
    floor. *)
Definition config_no_tv : Config := {|
  patch_size := (2, 1); patch_name := "p"; log_dir := "runs";
  tensorboard_port := 6006;
  debug_mode := false; loss_target := "obj * cls"; patch_src := "gray";
  start_lr := 3 # 100; n_epochs := 2; min_tv_loss := -1 # 1;
  model_in_sz := (4, 4); transform_patches := true; rotate_patches := true;
  use_amp := false; nps_mult := 1 # 100; tv_mult := 0 # 1
|}.

(** The same run with both patch losses switched off. *)
Definition config_unweighted : Config := {|
  patch_size := (2, 1); patch_name := "p"; log_dir := "runs";
  tensorboard_port := 6006;
  debug_mode := false; loss_target := "obj * cls"; patch_src := "gray";
  start_lr := 3 # 100; n_epochs := 2; min_tv_loss := 1 # 10;
  model_in_sz := (4, 4); transform_patches := true; rotate_patches := true;
  use_amp := false; nps_mult := 0 # 1; tv_mult := 0 # 1
|}.

(** A patch of 4 by 2 pixels, from a gray fill or from an image file. *)
Definition config_4x2 (src : string) : Config := {|
  patch_size := (4, 2); patch_name := "p"; log_dir := "runs";
  tensorboard_port := 6006;
  debug_mode := false; loss_target := "obj"; patch_src := src;
  start_lr := 3 # 100; n_epochs := 1; min_tv_loss := 1 # 10;
  model_in_sz := (4, 4); transform_patches := true; rotate_patches := true;
  use_amp := false; nps_mult := 1 # 100; tv_mult := 5 # 2
|}.

Definition trainer : Trainer := {| model_params := [0%nat]; epoch_length := 16 |}.

(** The state [train] is in when its first epoch starts: the frozen
    detector at 0, the gray patch at 1, the rule selected. *)
Definition ready : St nat :=
  mkSt 0
    [mkParam (mkTensor [2] (floats [1 # 3; 2 # 3])) false None;
     mkParam (full [3; 1; 2] (1 # 2)) true None]
    (TargetFn RuleObjCls) "runs/20240101-000000_p" [].

(** The state [train] starts from, after [__init__]. *)
Definition constructed : St nat :=
  mkSt 0 [mkParam (mkTensor [2] (floats [1 # 3; 2 # 3])) false None]
    (TargetStr "obj * cls") "runs/20240101-000000_p" [].

Definition optimizer : Optimizer unit := mkOpt [1%nat] (3 # 100) [].

(** The same collaborators with a loader of [len] batches, giving batches
    of one image when [single] is set, and with [grad] for the gradient of
    the loss. *)
Definition collaborators_of (len : nat) (single : bool) (grad : list Float)
    : Externals nat unit := {|
  strftime := tick "20240101-000000";
  is_port_in_use := fun port => tick (port <? 6008)%nat;
  tensorboard_launch := fun _ port => tick ("http://localhost:" +:+ str_nat port +:+ "/")%string;
  cfg_items := fun cfg dir =>
    [("patch_name", patch_name cfg); ("log_dir", dir); ("loss_target", loss_target cfg)]%string;
  load_weights := tick [mkParam (mkTensor [2] (floats [1 # 3; 2 # 3])) true None];
  loader_len := len;
  next_batch := tick (mkTensor [2; 1] (floats [0 # 1; 1 # 1]), mkTensor [2; 1] (floats [0 # 1; 1 # 1]));
  patch_transformer := fun p _ _ _ _ _ => tick p;
  patch_applier := fun img _ => tick img;
  interpolate := fun x _ => tick (if single then mkTensor [1; 1] (floats [0 # 1]) else x);
  model_forward := fun _ _ x => tick x;
  prob_extractor := fun f x => tick (map (fun v => f (number v) (number v)) (data x));
  nps_loss := fun _ => tick (1 # 4);
  tv_loss := fun _ => tick (1 # 8);
  autograd := fun _ _ => tick grad;
  adam_update := fun _ rate x g => (tt, mkTensor (shape x) (zip_with Fsub (data x) g));
  torch_rand := fun w => (inject_Z (Z.of_nat w) / 100, S w)%Q;
  image_open_rgb := fun _ => tick (mkTensor [3; 1; 1] (floats [0 # 1; 0 # 1; 0 # 1]));
  resized_pixel := fun _ _ _ _ _ _ => 1 # 2
|}.

(** The gradient of [collaborators], and one that is not a number. *)
Definition gradient : list Float := floats [5 # 1; -5 # 1; 5 # 1; -5 # 1; 5 # 1; -5 # 1].


(** The configuration of [config] with another loss target, number of
    epochs and debug mode. *)
Definition config_of (target : string) (epochs : nat) (debug : bool) : Config := {|
  patch_size := (2, 1); patch_name := "p"; log_dir := "runs";
  tensorboard_port := 6006;
  debug_mode := debug; loss_target := target; patch_src := "gray";
  start_lr := 3 # 100; n_epochs := epochs; min_tv_loss := 1 # 10;
  model_in_sz := (4, 4); transform_patches := true; rotate_patches := true;
  use_amp := false; nps_mult := 1 # 100; tv_mult := 5 # 2
|}.

End Example.

(** * Reasoning about runs *)

(** ** A weakest-precondition calculus for [M] *)

Section Logic.

Context {World : Type}.

Implicit Types s : St World.

Lemma wp_ret {A} (a : A) Q QE s : Q a s -> wp (ret a) Q QE s.
Proof. done. Qed.

Lemma wp_raise {A} e (Q : A -> St World -> Prop) QE s :
  QE e s -> wp (raise e) Q QE s.
Proof. done. Qed.

Lemma wp_bind {A B} (m : M World A) (k : A -> M World B) Q QE s :
  wp m (fun a s' => wp (k a) Q QE s') QE s -> wp (bind m k) Q QE s.
Proof. unfold wp, bind. by destruct (m s) as [[a|e] s']. Qed.

Lemma wp_mono {A} (m : M World A) (Q Q' : A -> St World -> Prop)
    (QE QE' : Exn -> St World -> Prop) s :
  wp m Q QE s ->
  (forall a s', Q a s' -> Q' a s') ->
  (forall e s', QE e s' -> QE' e s') ->
  wp m Q' QE' s.
Proof. unfold wp. destruct (m s) as [[a|e] s']; auto. Qed.

Lemma wp_returns {A} (m : M World A) Q QE s a s' :
  wp m Q QE s -> m s = (Ok a, s') -> Q a s'.
Proof. unfold wp. intros H Heq. by rewrite Heq in H. Qed.

Lemma wp_raises {A} (m : M World A) Q QE s e s' :
  wp m Q QE s -> m s = (Raise e, s') -> QE e s'.
Proof. unfold wp. intros H Heq. by rewrite Heq in H. Qed.

Lemma wp_eqn {A} (m : M World A) (Q : A -> St World -> Prop)
    (QE : Exn -> St World -> Prop) s :
  (forall a s', m s = (Ok a, s') -> Q a s') ->
  (forall e s', m s = (Raise e, s') -> QE e s') ->
  wp m Q QE s.
Proof. unfold wp. destruct (m s) as [[a|e] s']; auto. Qed.

Lemma bind_returns {A B} (m : M World A) (k : A -> M World B) s b s' :
  bind m k s = (Ok b, s') ->
  exists a s1, m s = (Ok a, s1) /\ k a s1 = (Ok b, s').
Proof. unfold bind. destruct (m s) as [[a|e] s1]; [eauto | done]. Qed.

Lemma wp_final {A} (m : M World A) (P : St World -> Prop) s :
  wp m (fun _ => P) (fun _ => P) s -> P (snd (m s)).
Proof. unfold wp. by destruct (m s) as [[a|e] s']. Qed.

(** An exceptional postcondition that is never met: the run returns. *)
Lemma wp_total {A} (m : M World A) Q s :
  wp m Q (fun _ _ => False) s -> exists a s', m s = (Ok a, s') /\ Q a s'.
Proof. unfold wp. destruct (m s) as [[a|e] s']; [eauto | done]. Qed.

Lemma wp_ext {A} (f : Ext World A) Q QE s :
  (forall a w, f (world s) = (a, w) ->
     Q a (mkSt w (heap s) (cfg_loss_target s) (cfg_log_dir s) (log s))) ->
  wp (ext f) Q QE s.
Proof. unfold wp, ext. destruct (f (world s)) as [a w]. auto. Qed.

Lemma wp_read (id : nat) Q QE s :
  (forall p, heap s !! id = Some p -> Q p s) ->
  (heap s !! id = None -> QE (Dangling id) s) ->
  wp (read id) Q QE s.
Proof. unfold wp, read. destruct (heap s !! id); auto. Qed.

Lemma wp_modify (id : nat) f Q QE s :
  (forall p, heap s !! id = Some p ->
     Q tt (mkSt (world s) (<[id := f p]> (heap s)) (cfg_loss_target s)
             (cfg_log_dir s) (log s))) ->
  (heap s !! id = None -> QE (Dangling id) s) ->
  wp (modify id f) Q QE s.
Proof. unfold wp, modify. destruct (heap s !! id); auto. Qed.

(** Loops: an invariant over the index and the carried variables. *)
Lemma wp_for_range {A} (I : nat -> A -> St World -> Prop) n i0
    (body : nat -> A -> M World A) a Q QE s :
  I i0 a s ->
  (forall i x t, (i0 <= i < i0 + n)%nat -> I i x t -> wp (body i x) (I (S i)) QE t) ->
  (forall x t, I (i0 + n)%nat x t -> Q x t) ->
  wp (for_range n i0 body a) Q QE s.
Proof.
  revert i0 a s. induction n as [|n IH]; intros i0 a s Hi Hbody Hq; simpl.
  - apply wp_ret, Hq. by rewrite Nat.add_0_r.
  - apply wp_bind. eapply wp_mono; [apply (Hbody i0 a s); [lia | done] | | done].
    intros a' s' Hi'. apply IH; [done | |].
    + intros i x t Hr. apply Hbody. lia.
    + intros x t. replace (S i0 + n)%nat with (i0 + S n)%nat by lia. apply Hq.
Qed.

Lemma wp_for_each {A} (I : St World -> Prop) (xs : list A)
    (body : A -> M World unit) (Q : unit -> St World -> Prop) QE s :
  I s ->
  (forall x t, x ∈ xs -> I t -> wp (body x) (fun _ => I) QE t) ->
  (forall t, I t -> Q tt t) ->
  wp (for_each xs body) Q QE s.
Proof.
  revert s. induction xs as [|x xs IH]; intros s Hi Hbody Hq; simpl.
  - by apply wp_ret, Hq.
  - apply wp_bind. eapply wp_mono; [apply (Hbody x s); [left | done] | | done].
    intros [] s' Hi'. apply IH; [done | | done].
    intros y t Hy. apply Hbody. by right.
Qed.

Lemma wp_emit ev (Q : unit -> St World -> Prop) QE s :
  Q tt (mkSt (world s) (heap s) (cfg_loss_target s) (cfg_log_dir s) (log s ++ [ev])) ->
  wp (emit ev) Q QE s.
Proof. done. Qed.

Lemma wp_get_loss_target (Q : LossTarget -> St World -> Prop) QE s :
  Q (cfg_loss_target s) s -> wp get_loss_target Q QE s.
Proof. done. Qed.

Lemma wp_set_loss_target t (Q : unit -> St World -> Prop) QE s :
  Q tt (mkSt (world s) (heap s) t (cfg_log_dir s) (log s)) ->
  wp (set_loss_target t) Q QE s.
Proof. done. Qed.

Lemma wp_get_log_dir (Q : string -> St World -> Prop) QE s :
  Q (cfg_log_dir s) s -> wp get_log_dir Q QE s.
Proof. done. Qed.

Lemma wp_set_log_dir d (Q : unit -> St World -> Prop) QE s :
  Q tt (mkSt (world s) (heap s) (cfg_loss_target s) d (log s)) ->
  wp (set_log_dir d) Q QE s.
Proof. done. Qed.

Lemma wp_alloc p (Q : nat -> St World -> Prop) QE s :
  Q (length (heap s))
    (mkSt (world s) (heap s ++ [p]) (cfg_loss_target s) (cfg_log_dir s) (log s)) ->
  wp (alloc p) Q QE s.
Proof. done. Qed.


End Logic.

Section LogicLists.

Context {World : Type}.

Lemma wp_read_all (ids : list nat) (Q : list Tensor -> St World -> Prop) QE
    (s : St World) :
  (forall ps, Forall2 (fun id p => heap s !! id = Some p) ids ps ->
     Q (map p_data ps) s) ->
  (forall id, id ∈ ids -> heap s !! id = None -> QE (Dangling id) s) ->
  wp (read_all ids) Q QE s.
Proof.
  revert Q. induction ids as [|id ids IH]; intros Q Hq He; simpl.
  - apply wp_ret. apply (Hq []). constructor.
  - apply wp_bind, wp_read.
    + intros p Hp. apply wp_bind, IH.
      * intros ps Hps. apply wp_ret, (Hq (p :: ps)). by constructor.
      * intros id' Hin. apply He. by right.
    + apply He. left.
Qed.

End LogicLists.

(** One step of symbolic execution. *)
Ltac wp_step :=
  lazymatch goal with
  | |- wp (bind _ _) _ _ _ => apply wp_bind
  | |- wp (ret _) _ _ _ => apply wp_ret
  | |- wp (raise _) _ _ _ => apply wp_raise
  | |- wp (ext _) _ _ _ => apply wp_ext; intros ? ? ?; simpl
  | |- wp (emit _) _ _ _ => apply wp_emit; simpl
  | |- wp get_loss_target _ _ _ => apply wp_get_loss_target
  | |- wp (set_loss_target _) _ _ _ => apply wp_set_loss_target; simpl
  | |- wp get_log_dir _ _ _ => apply wp_get_log_dir
  | |- wp (set_log_dir _) _ _ _ => apply wp_set_log_dir; simpl
  | |- wp (alloc _) _ _ _ => apply wp_alloc; simpl
  | |- wp (read _) _ _ _ => apply wp_read; [intros ? ? | intros ?]
  | |- wp (modify _ _) _ _ _ => apply wp_modify; [intros ? ?; simpl | intros ?]
  | |- wp (read_all _) _ _ _ => apply wp_read_all; [intros ? ? | intros ? ? ?]
  | |- wp (match ?x with _ => _ end) _ _ _ => destruct x eqn:?
  end.

Ltac wp_steps := repeat wp_step.

(** Run a block whose specification [lem] is known: [Heq] names the
    equation of its run, [Hspec] what [lem] says of the outcome. *)
Tactic Notation "wp_apply" constr(lem) "as" ident(Heq) ident(Hspec) :=
  apply wp_eqn;
  [ intros ? ? Heq; pose proof (wp_returns _ _ _ _ _ _ lem Heq) as Hspec;
    simpl in Hspec
  | intros ? ? Heq; pose proof (wp_raises _ _ _ _ _ _ lem Heq) as Hspec;
    simpl in Hspec ].

(** ** Paths of the saved patches *)

Lemma length_append (a b : string) :
  String.length (a +:+ b) = (String.length a + String.length b)%nat.
Proof. induction a as [|c a IH]; simpl; [done | by rewrite IH]. Qed.

Lemma append_inj_suffix (a b s : string) : a +:+ s = b +:+ s -> a = b.
Proof.
  intros H.
  assert (String.length a = String.length b) as Hlen.
  { apply (f_equal String.length) in H. rewrite !length_append in H. lia. }
  revert b H Hlen. induction a as [|c a IH]; intros [|d b]; simpl; try done.
  intros [= -> H] [= Hlen]. f_equal. by apply IH.
Qed.

Lemma str_nat_inj (m n : nat) : str_nat m = str_nat n -> m = n.
Proof.
  unfold str_nat. intros H.
  apply (f_equal NilEmpty.uint_of_string) in H.
  rewrite !NilEmpty.usu in H. injection H as H.
  by apply DecimalNat.Unsigned.to_uint_inj.
Qed.

Lemma patch_file_name_inj name (m n : nat) :
  patch_file_name name m = patch_file_name name n -> m = n.
Proof.
  unfold patch_file_name. intros H.
  apply String.app_inj, (String.app_inj "_epoch_") in H.
  by apply append_inj_suffix, str_nat_inj in H.
Qed.

Lemma is_abs_patch_file_name name m n :
  is_abs (patch_file_name name m) = is_abs (patch_file_name name n).
Proof. unfold patch_file_name. by destruct name. Qed.

Lemma osp_join_patch_file_name_inj dir name (m n : nat) :
  osp_join dir (patch_file_name name m) = osp_join dir (patch_file_name name n) ->
  m = n.
Proof.
  unfold osp_join. rewrite (is_abs_patch_file_name name m n).
  destruct (is_abs _), (ends_with_sep dir), (String.eqb dir ""); intros H.
  all: try by apply patch_file_name_inj in H.
  all: try by apply String.app_inj, patch_file_name_inj in H.
  all: by apply String.app_inj, (String.app_inj "/"), patch_file_name_inj in H.
Qed.

Lemma patch_paths_NoDup dir name n :
  NoDup (map (fun e => osp_join dir (patch_file_name name e)) (seq 0 n)).
Proof.
  change map with (@fmap list _). apply NoDup_fmap_2; [|apply NoDup_seq].
  intros x y. apply osp_join_patch_file_name_inj.
Qed.

(** ** The frame relation *)

Section Frame.

Context {World : Type}.

Implicit Types s t : St World.

Lemma keeps_refl pid s : keeps pid s s.
Proof. repeat split; eauto 10. Qed.

Lemma keeps_trans pid s t u : keeps pid s t -> keeps pid t u -> keeps pid s u.
Proof.
  intros (Ht1 & Hd1 & Hl1 & Hh1) (Ht2 & Hd2 & Hl2 & Hh2).
  repeat split; try congruence.
  intros id p Hp. destruct (Hh1 id p Hp) as (p1 & Hp1 & Hr1 & Hf1).
  destruct (Hh2 id p1 Hp1) as (p2 & Hp2 & Hr2 & Hf2).
  exists p2. split; [done|]. split; [congruence|].
  intros Hne. destruct (Hf1 Hne) as [Hd Hs], (Hf2 Hne) as [Hd' Hs'].
  split; [congruence|]. intros Hfalse.
  rewrite <- (Hs Hfalse). apply Hs'. congruence.
Qed.

(** The world and the log may change freely. *)
Lemma keeps_heap_eq pid s s' :
  heap s' = heap s -> cfg_loss_target s' = cfg_loss_target s ->
  cfg_log_dir s' = cfg_log_dir s -> keeps pid s s'.
Proof.
  intros Hh Ht Hd. repeat split; try congruence.
  rewrite Hh. eauto 10.
Qed.

(** An in-place update of [pid] that keeps its flag. *)
Lemma keeps_update_patch pid s w l p f :
  heap s !! pid = Some p ->
  requires_grad (f p) = requires_grad p ->
  keeps pid s (mkSt w (<[pid := f p]> (heap s)) (cfg_loss_target s) (cfg_log_dir s) l).
Proof.
  intros Hp Hf. repeat split; simpl; [by rewrite length_insert|].
  intros id q Hq. destruct (decide (id = pid)) as [->|Hne].
  - exists (f p). rewrite list_lookup_insert_eq by (by eapply lookup_lt_Some).
    split; [done|]. split; [congruence | done].
  - exists q. by rewrite list_lookup_insert_ne.
Qed.

(** A new gradient on a leaf that requires one. *)
Lemma keeps_set_grad pid s w l id p g :
  heap s !! id = Some p ->
  requires_grad p = true ->
  keeps pid s (mkSt w (<[id := set_grad g p]> (heap s)) (cfg_loss_target s)
                 (cfg_log_dir s) l).
Proof.
  intros Hp Hr. repeat split; simpl; [by rewrite length_insert|].
  intros id' q Hq. destruct (decide (id' = id)) as [->|Hne].
  - exists (set_grad g p). rewrite list_lookup_insert_eq by (by eapply lookup_lt_Some).
    assert (q = p) as -> by congruence.
    split; [done|]. split; [done|]. intros _. split; [done | congruence].
  - exists q. by rewrite list_lookup_insert_ne.
Qed.

End Frame.

(** ** Frame properties of the blocks of [train] *)

Section Blocks.

Context {World OptState : Type} (E : Externals World OptState).

Implicit Types s t : St World.
Implicit Types o : Optimizer OptState.

Lemma same_store_keeps pid s s' : same_store s s' -> keeps pid s s'.
Proof. intros (Hh & Ht & Hd). by apply keeps_heap_eq. Qed.

Lemma forward_losses_same cfg tr pid floor i s :
  wp (forward_losses E cfg tr pid floor i)
     (fun _ s' => same_store s s') (fun _ s' => same_store s s') s.
Proof. unfold forward_losses. wp_steps; by repeat split. Qed.


Lemma quiet_refl pid s : quiet pid s s.
Proof. split; [apply keeps_refl | done]. Qed.

Lemma quiet_trans pid s t u : quiet pid s t -> quiet pid t u -> quiet pid s u.
Proof. intros [H1 L1] [H2 L2]. split; [by eapply keeps_trans | congruence]. Qed.

Lemma quiet_update_patch pid s w p f :
  heap s !! pid = Some p ->
  requires_grad (f p) = requires_grad p ->
  quiet pid s (mkSt w (<[pid := f p]> (heap s)) (cfg_loss_target s) (cfg_log_dir s) (log s)).
Proof. intros Hp Hf. split; [by apply keeps_update_patch | done]. Qed.

Lemma backward_quiet pid l leaves s :
  wp (backward E l leaves) (fun _ s' => quiet pid s s') (fun _ s' => quiet pid s s') s.
Proof.
  unfold backward. apply wp_for_each with (I := quiet pid s).
  - apply quiet_refl.
  - intros id t _ Ht. wp_steps; try done.
    simpl in *. assert (p0 = p) as -> by congruence.
    eapply quiet_trans; [done|]. split; [by apply keeps_set_grad | done].
  - done.
Qed.

Lemma optimizer_step_on_quiet pid ids o s :
  Forall (fun id => id = pid) ids ->
  wp (optimizer_step_on E ids o)
     (fun o' s' => quiet pid s s' /\ lr o' = lr o /\ opt_params o' = opt_params o)
     (fun _ s' => quiet pid s s') s.
Proof.
  intros Hids. revert o s. induction Hids as [|id ids -> _ IH]; intros o s; simpl.
  - apply wp_ret. split; [apply quiet_refl | done].
  - wp_steps.
    + eapply wp_mono; [apply IH | |].
      * intros o' s' (Hk & Hlr & Hps). simpl in *. split; [|done].
        eapply quiet_trans; [|done].
        by apply quiet_update_patch.
      * intros e s' Hk. simpl in Hk. eapply quiet_trans; [|done].
        by apply quiet_update_patch.
    + apply quiet_refl.
    + apply IH.
    + apply quiet_refl.
Qed.

Lemma zero_grad_quiet pid o s :
  Forall (fun id => id = pid) (opt_params o) ->
  wp (zero_grad o) (fun _ s' => quiet pid s s') (fun _ s' => quiet pid s s') s.
Proof.
  intros Hids. unfold zero_grad. apply wp_for_each with (I := quiet pid s).
  - apply quiet_refl.
  - intros id t Hin Ht.
    rewrite Forall_forall in Hids. rewrite (Hids id Hin).
    wp_steps; [|done]. eapply quiet_trans; [done|].
    by apply (quiet_update_patch pid t _ p (set_grad None)).
  - done.
Qed.

Lemma clamp_in_unit x : in_unit_or_nan (clamp 0 1 x).
Proof.
  destruct x as [q|]; simpl; [|done]. split.
  - apply Q.min_glb; [apply Q.le_max_r | done].
  - apply Q.le_min_r.
Qed.

Lemma clamp__in_unit (x : Tensor) : Forall in_unit_or_nan (data (clamp_ 0 1 x)).
Proof. simpl. apply Forall_map, Forall_forall. intros y _. apply clamp_in_unit. Qed.


Lemma update_patch_spec tr pid o l s :
  Forall (fun id => id = pid) (opt_params o) ->
  wp (update_patch E tr pid o l)
     (fun o' s' => quiet pid s s' /\ lr o' = lr o /\ opt_params o' = opt_params o /\
                   patch_clamped pid s')
     (fun _ s' => quiet pid s s') s.
Proof.
  intros Hids. unfold update_patch. wp_step.
  eapply wp_mono; [apply (backward_quiet pid) | | done].
  intros [] s1 Hk1. wp_step. unfold optimizer_step.
  eapply wp_mono; [by apply (optimizer_step_on_quiet pid) | |].
  2:{ intros e s2 Hk2. simpl in *. by eapply quiet_trans. }
  intros o' s2 (Hk2 & Hlr & Hps). wp_step.
  eapply wp_mono; [apply (zero_grad_quiet pid); by rewrite Hps | |].
  2:{ intros e s3 Hk3. simpl in *. eapply quiet_trans; [|done]. by eapply quiet_trans. }
  intros [] s3 Hk3. simpl in Hk3.
  assert (quiet pid s s3) as Hk by (eapply quiet_trans; [|done]; by eapply quiet_trans).
  wp_steps; [|done].
  split; [|split; [done|split; [done|]]].
  - eapply quiet_trans; [done|].
    by apply (quiet_update_patch pid s3 _ p (fun p => set_data (clamp_ 0 1 (p_data p)) p)).
  - exists (set_data (clamp_ 0 1 (p_data p)) p). simpl. split.
    + apply list_lookup_insert_eq. by eapply lookup_lt_Some.
    + apply (clamp__in_unit (p_data p)).
Qed.

(** A loss whose weight [m] is zero is not computed (lines 181-182). *)
Lemma wp_weighted (m : Q) (f : Ext World Q) (Q : Q -> St World -> Prop) QE s :
  (forall v w wn,
     (v * m == fst (f wn) * m)%Q ->
     (Qeq_bool m 0 = true -> v = 0%Q /\ w = world s) ->
     Q v (mkSt w (heap s) (cfg_loss_target s) (cfg_log_dir s) (log s))) ->
  wp (if negb (Qeq_bool m 0) then ext f else ret 0%Q) Q QE s.
Proof.
  intros H. destruct (Qeq_bool m 0) eqn:Hm; simpl.
  - apply wp_ret. destruct s as [w h lt d l]. simpl in *.
    apply (H 0%Q w w); [|done].
    apply Qeq_bool_eq in Hm. by rewrite Hm, !Qmult_0_r.
  - apply wp_ext. intros v w Hf. apply (H v w (world s)); [|done].
    by rewrite Hf.
Qed.

Ltac wp_step' :=
  lazymatch goal with
  | |- wp (if negb (Qeq_bool _ _) then ext _ else ret _) _ _ _ =>
      apply wp_weighted; intros ? ? ? ? ?; simpl
  | _ => wp_step
  end.

Lemma forward_losses_spec cfg tr pid floor i s :
  wp (forward_losses E cfg tr pid floor i)
     (fun l s' =>
        same_store s s' /\
        (exists dbg, log s' = log s ++ dbg /\ Forall silent dbg) /\
        exists p r, heap s !! pid = Some p /\ cfg_loss_target s = TargetFn r /\
                    losses_of E cfg floor p r l)
     (fun _ s' => same_store s s') s.
Proof.
  unfold forward_losses.
  repeat wp_step'; try done.
  all: simpl in *; (split; [by repeat split|]).
  all: split;
    [first [by exists []; rewrite app_nil_r
           | eexists; split; [done | by repeat constructor]] |].
  all: eexists _, _; split; [done|]; split; [done|].
  all: unfold losses_of; simpl.
  all: match goal with
       | Hx : prob_extractor _ _ ?out ?wx = _,
         Hn : (_ == (nps_loss _ _ ?wn).1 * _)%Q,
         Ht : (_ == (tv_loss _ _ ?wt).1 * _)%Q |- _ =>
           exists out, wx, wn, wt; rewrite Hx;
           repeat split; [done | by rewrite Ht | apply Q.le_max_r]
       end.
Qed.

Lemma write_metrics_spec tr pid o l epoch i s p :
  heap s !! pid = Some p ->
  wp (write_metrics tr pid o l epoch i)
     (fun _ s' =>
        same_store s s' /\
        log s' = log s ++ metric_events (epoch_length tr) epoch i l (lr o) (p_data p))
     (fun _ _ => False) s.
Proof.
  intros Hp. unfold write_metrics, metric_events.
  destruct (i mod 15 =? 0)%nat.
  - wp_steps; simpl in *; [|congruence].
    split; [by repeat split|].
    assert (p0 = p) as -> by congruence.
    by rewrite <- !app_assoc.
  - apply wp_ret. split; [by repeat split | by rewrite app_nil_r].
Qed.

Lemma batch_step_spec cfg tr pid floor epoch i o ep s :
  Forall (fun id => id = pid) (opt_params o) ->
  wp (batch_step E cfg tr pid floor epoch i (o, ep))
     (fun '(o', ep') s' =>
        keeps pid s s' /\ lr o' = lr o /\ opt_params o' = opt_params o /\
        exists l s1 p0 r p pre post,
          forward_losses E cfg tr pid floor i s = (Ok l, s1) /\
          heap s !! pid = Some p0 /\ cfg_loss_target s = TargetFn r /\
          losses_of E cfg floor p0 r l /\
          ep' = (ep + loss l)%Q /\
          heap s' !! pid = Some p /\ Forall in_unit_or_nan (data (p_data p)) /\
          log s' = log s ++ pre ++
                   metric_events (epoch_length tr) epoch i l (lr o) (p_data p) ++ post /\
          Forall silent pre /\ Forall silent post)
     (fun _ s' => keeps pid s s') s.
Proof.
  intros Hids. unfold batch_step. wp_step.
  wp_apply (forward_losses_spec cfg tr pid floor i s) as Hfwd Hf.
  2:{ by apply same_store_keeps. }
  destruct Hf as (Hsame & (pre & Hlog & Hpre) & p0 & r & Hp0 & Hr & Hl).
  wp_step.
  wp_apply (update_patch_spec tr pid o a s' Hids) as Hupd Hu.
  2:{ eapply keeps_trans; [by apply same_store_keeps | apply Hu]. }
  destruct Hu as ([Hk Hlog1] & Hlr & Hps & p & Hp & Hclamped).
  wp_step.
  wp_apply (write_metrics_spec tr pid a0 a epoch i s'0 p Hp) as Hwm Hw; [|done].
  destruct Hw as (Hsame2 & Hlog2).
  assert (keeps pid s s'1) as Hkeeps.
  { eapply keeps_trans; [by apply same_store_keeps|].
    eapply keeps_trans; [done | by apply same_store_keeps]. }
  destruct Hsame2 as (Hh2 & Ht2 & Hd2).
  wp_step. destruct (loader_len E <=? i + 1)%nat; wp_steps.
  - split; [|split; [done|split; [done|]]].
    { eapply keeps_trans; [done|]. by apply keeps_heap_eq. }
    exists a, s', p0, r, p, pre, [Print newline]. simpl.
    repeat split; try done.
    + by rewrite Hh2.
    + rewrite Hlog2, Hlog1, Hlog, Hlr. by rewrite <- !app_assoc.
    + by repeat constructor.
  - split; [done|split; [done|split; [done|]]].
    exists a, s', p0, r, p, pre, []. simpl.
    repeat split; try done.
    + by rewrite Hh2.
    + rewrite Hlog2, Hlog1, Hlog, Hlr, app_nil_r. by rewrite <- !app_assoc.
Qed.

(** ** Reading a log *)

Lemma steps_of_app tag a b : steps_of tag (a ++ b) = steps_of tag a ++ steps_of tag b.
Proof. apply flat_map_app. Qed.

Lemma saved_patches_app a b : saved_patches (a ++ b) = saved_patches a ++ saved_patches b.
Proof. apply flat_map_app. Qed.

Lemma steps_of_silent tag evs : Forall silent evs -> steps_of tag evs = [].
Proof. induction 1 as [|e evs He _ IH]; [done|]. simpl. rewrite IH. by destruct e. Qed.

Lemma saved_patches_silent evs : Forall silent evs -> saved_patches evs = [].
Proof. induction 1 as [|e evs He _ IH]; [done|]. simpl. rewrite IH. by destruct e. Qed.

Lemma steps_of_metric_events tag len epoch i l rate patch :
  tag ∈ metric_tags ->
  steps_of tag (metric_events len epoch i l rate patch) =
  if (i mod 15 =? 0)%nat then [(len * epoch + i)%nat] else [].
Proof.
  intros Htag. unfold metric_events. destruct (i mod 15 =? 0)%nat; [|done].
  unfold metric_tags in Htag. rewrite !elem_of_cons, elem_of_nil in Htag.
  destruct Htag as [->|[->|[->|[->|[->|[->|[->|[]]]]]]]]; reflexivity.
Qed.

Lemma saved_patches_metric_events len epoch i l rate patch :
  saved_patches (metric_events len epoch i l rate patch) = [].
Proof. unfold metric_events. by destruct (i mod 15 =? 0)%nat. Qed.

Lemma emission_indices_S n :
  emission_indices (S n) =
  emission_indices n ++ (if (n mod 15 =? 0)%nat then [n] else []).
Proof.
  unfold emission_indices. rewrite seq_S, List.filter_app. simpl.
  by destruct (n mod 15 =? 0)%nat.
Qed.

(** ** The loop over the batches of an epoch *)

Lemma batch_loop_totals cfg tr pid floor epoch n i acc s acc' s' :
  Forall (fun id => id = pid) (opt_params acc.1) ->
  for_range n i (batch_step E cfg tr pid floor epoch) acc s = (Ok acc', s') ->
  (acc'.2 == acc.2 + Qsum (batch_totals E cfg tr pid floor epoch n i acc s))%Q /\
  length (batch_totals E cfg tr pid floor epoch n i acc s) = n.
Proof.
  revert i acc s. induction n as [|n IH]; intros i [o ep] s Hids Hrun; simpl in *.
  - inversion Hrun; subst. simpl. split; [ring | done].
  - apply bind_returns in Hrun as ([o1 ep1] & s1 & Hstep & Hrest).
    pose proof (wp_returns _ _ _ _ _ _
                  (batch_step_spec cfg tr pid floor epoch i o ep s Hids) Hstep) as Hspec.
    simpl in Hspec.
    destruct Hspec as (_ & _ & Hps & l & s2 & _ & _ & _ & _ & _ & Hfwd & _ & _ & _ & Hep & _).
    rewrite Hfwd, Hstep.
    destruct (IH (S i) (o1, ep1) s1) as [Hsum Hlen]; [simpl; by rewrite Hps | done |].
    simpl in *. split; [|by rewrite Hlen].
    rewrite Hsum, Hep. ring.
Qed.

Lemma batch_loop_spec cfg tr pid floor epoch n o s :
  Forall (fun id => id = pid) (opt_params o) ->
  wp (for_range n 0 (batch_step E cfg tr pid floor epoch) (o, 0%Q))
     (fun '(o', _) s' =>
        keeps pid s s' /\ lr o' = lr o /\ opt_params o' = opt_params o /\
        (n <> 0%nat -> patch_clamped pid s') /\
        exists evs, log s' = log s ++ evs /\
          (forall tag, tag ∈ metric_tags ->
             steps_of tag evs = epoch_steps (epoch_length tr) n epoch) /\
          saved_patches evs = [])
     (fun _ s' => keeps pid s s') s.
Proof.
  intros Hids.
  apply wp_for_range with (I := fun i '(o', _) s' =>
    keeps pid s s' /\ lr o' = lr o /\ opt_params o' = opt_params o /\
    (i <> 0%nat -> patch_clamped pid s') /\
    exists evs, log s' = log s ++ evs /\
      (forall tag, tag ∈ metric_tags ->
         steps_of tag evs = epoch_steps (epoch_length tr) i epoch) /\
      saved_patches evs = []).
  - split; [apply keeps_refl|]. do 3 (split; [done|]).
    exists []. by rewrite app_nil_r.
  - intros i [o1 ep1] t _ (Hk & Hlr & Hps & _ & evs & Hlog & Hsteps & Hsaved).
    assert (Forall (fun id => id = pid) (opt_params o1)) as Hids1 by (by rewrite Hps).
    wp_apply (batch_step_spec cfg tr pid floor epoch i o1 ep1 t Hids1) as Hstep Hspec.
    + destruct a as [o2 ep2].
      destruct Hspec as (Hk2 & Hlr2 & Hps2 & l & s1 & p0 & r & p & pre & post &
                         _ & _ & _ & _ & _ & Hp & Hcl & Hlog2 & Hpre & Hpost).
      split; [by eapply keeps_trans|]. split; [congruence|]. split; [congruence|].
      split; [intros _; by exists p|].
      eexists. split; [rewrite Hlog2, Hlog, <- app_assoc; reflexivity|].
      split.
      * intros tag Htag. rewrite !steps_of_app, (Hsteps tag Htag).
        rewrite (steps_of_silent _ pre Hpre), (steps_of_silent _ post Hpost).
        rewrite (steps_of_metric_events tag) by done.
        unfold epoch_steps. rewrite emission_indices_S, map_app.
        destruct (i mod 15 =? 0)%nat; simpl; by rewrite ?app_nil_r.
      * rewrite !saved_patches_app, Hsaved, saved_patches_metric_events.
        by rewrite (saved_patches_silent pre), (saved_patches_silent post).
    + by eapply keeps_trans.
  - by intros [o' ep'] t.
Qed.

(** ** One epoch *)

Lemma train_epoch_spec cfg tr dir pid epoch o sch s :
  Forall (fun id => id = pid) (opt_params o) ->
  wp (train_epoch E cfg tr dir pid epoch (o, sch))
     (fun '(o', sch') s' =>
        keeps pid s s' /\ opt_params o' = opt_params o /\ loader_len E <> 0%nat /\
        (exists m,
           (m == Qsum (epoch_totals E cfg tr pid epoch o s) /
                 inject_Z (Z.of_nat (loader_len E)))%Q /\
           length (epoch_totals E cfg tr pid epoch o s) = loader_len E /\
           (sch', lr o') = ReduceLROnPlateau.step sch (lr o) m) /\
        exists p evs,
          heap s' !! pid = Some p /\ Forall in_unit_or_nan (data (p_data p)) /\
          log s' = log s ++ evs /\
          (forall tag, tag ∈ metric_tags ->
             steps_of tag evs = epoch_steps (epoch_length tr) (loader_len E) epoch) /\
          saved_patches evs =
            [(osp_join dir (patch_file_name (patch_name cfg) epoch), p_data p)])
     (fun _ s' => keeps pid s s') s.
Proof.
  intros Hids. unfold train_epoch, epoch_totals. wp_step. wp_step. wp_step.
  set (s0 := (emit (Print (str_nat epoch)) s).2).
  assert (keeps pid s s0) as Hk0 by (by apply keeps_heap_eq).
  change (mkSt _ _ _ _ _) with s0.
  apply wp_eqn.
  2:{ intros e s' Hrun. eapply keeps_trans; [done|].
      apply (wp_raises _ _ _ _ _ _ (batch_loop_spec cfg tr pid _ epoch _ o s0 Hids) Hrun). }
  intros [o1 ep1] s1 Hrun.
  pose proof (wp_returns _ _ _ _ _ _
                (batch_loop_spec cfg tr pid _ epoch _ o s0 Hids) Hrun) as Hspec.
  destruct (batch_loop_totals cfg tr pid _ epoch _ 0 (o, 0%Q) s0 _ _ Hids Hrun)
    as [Hsum Hlen].
  simpl in Hspec, Hsum.
  destruct Hspec as (Hk1 & Hlr & Hps & Hcl & evs & Hlog & Hsteps & Hsaved).
  destruct (loader_len E =? 0)%nat eqn:Hlen0.
  { apply wp_raise. exact (keeps_trans _ _ _ _ Hk0 Hk1). }
  apply Nat.eqb_neq in Hlen0. destruct (Hcl Hlen0) as (p & Hp & Hunit).
  destruct (ReduceLROnPlateau.step sch (lr o1) _) as [sch' rate] eqn:Hsched.
  wp_steps; simpl in *; [|congruence].
  assert (p0 = p) as -> by congruence.
  split; [exact (keeps_trans _ _ _ _ Hk0 Hk1)|]. split; [done|]. split; [done|]. split.
  - eexists. split; [|split; [exact Hlen | by rewrite <- Hsched, Hlr]].
    by rewrite Hsum, Qplus_0_l.
  - exists p. eexists. split; [done|]. split; [done|].
    split; [rewrite Hlog; unfold s0; simpl; rewrite <- !app_assoc; reflexivity|].
    split.
    + intros tag Htag. simpl. rewrite steps_of_app, (Hsteps tag Htag). simpl.
      by rewrite app_nil_r.
    + simpl. by rewrite saved_patches_app, Hsaved.
Qed.

(** ** Creating the patch *)

Lemma rand_buffer_spec n s :
  wp (rand_buffer E n)
     (fun buf s' => same_store s s' /\ log s' = log s /\ length buf = n)
     (fun _ _ => False) s.
Proof.
  revert s. induction n as [|n IH]; intros s; simpl.
  - by apply wp_ret.
  - wp_steps.
    eapply wp_mono; [apply IH | | done].
    intros buf s' ((Hh & Ht & Hd) & Hl & Hn). simpl in *.
    wp_steps. repeat split; simpl; congruence.
Qed.

Lemma length_bind_const {A B} (f : A -> list B) (l : list A) n :
  (forall x, length (f x) = n) -> length (l ≫= f) = (length l * n)%nat.
Proof.
  intros Hf. induction l as [|x l IH]; [done|].
  change ((x :: l) ≫= f) with (f x ++ (l ≫= f)).
  by rewrite length_app, Hf, IH.
Qed.

Lemma length_tabulate3 c h w f : length (tabulate3 c h w f) = numel [c; h; w].
Proof.
  unfold tabulate3.
  rewrite (length_bind_const _ _ (h * (w * 1))), length_seq; [done|].
  intros k. rewrite (length_bind_const _ _ (w * 1)), length_seq; [done|].
  intros y. rewrite (length_bind_const _ _ 1), length_seq; done.
Qed.

Lemma init_patch_spec cfg s :
  wp (init_patch E cfg)
     (fun pid s' =>
        pid = length (heap s) /\
        cfg_loss_target s' = cfg_loss_target s /\ cfg_log_dir s' = cfg_log_dir s /\
        log s' = log s /\
        exists x, heap s' = heap s ++ [mkParam x true None] /\ patch_of_source cfg x)
     (fun _ _ => False) s.
Proof.
  unfold init_patch, generate_patch, read_image, patch_of_source.
  destruct (patch_size cfg) as [p_w p_h].
  wp_step.
  assert (forall (x : Tensor) s1, same_store s s1 -> log s1 = log s ->
    (length (data x) = numel (shape x) /\
     if String.eqb (patch_src cfg) "gray" then x = full [3; p_h; p_w] (1 # 2)
     else if String.eqb (patch_src cfg) "random" then shape x = [3; p_h; p_w]
     else shape x = [3; p_w; p_h]) ->
    wp (bind (alloc (mkParam x false None))
          (fun adv_patch_cpu =>
             bind (modify adv_patch_cpu (set_requires_grad true))
               (fun _ => ret adv_patch_cpu)))
       (fun pid s' =>
          pid = length (heap s) /\
          cfg_loss_target s' = cfg_loss_target s /\ cfg_log_dir s' = cfg_log_dir s /\
          log s' = log s /\
          exists x, heap s' = heap s ++ [mkParam x true None] /\
            length (data x) = numel (shape x) /\
            if String.eqb (patch_src cfg) "gray" then x = full [3; p_h; p_w] (1 # 2)
            else if String.eqb (patch_src cfg) "random" then shape x = [3; p_h; p_w]
            else shape x = [3; p_w; p_h])
       (fun _ _ => False) s1) as Hrest.
  { intros x s1 (Hh & Ht & Hd) Hl Hx. wp_steps; simpl in *.
    - rewrite Hh. repeat split; try done. exists x.
      rewrite Hh in *. rewrite lookup_app_r in * by done.
      rewrite Nat.sub_diag in *. simpl in *.
      match goal with H : Some _ = Some _ |- _ => inversion H; subst end.
      rewrite insert_app_r_alt, Nat.sub_diag by done. done.
    - rewrite Hh in *. rewrite lookup_app_r in * by done.
      by rewrite Nat.sub_diag in *. }
  destruct (String.eqb (patch_src cfg) "gray") eqn:Hgray; simpl.
  { wp_step. apply Hrest; [done | done |]. split; [|done].
    simpl. by rewrite repeat_length. }
  destruct (String.eqb (patch_src cfg) "random") eqn:Hrandom; simpl.
  { wp_step. eapply wp_mono; [apply rand_buffer_spec | | done].
    intros buf s1 (Hsame & Hl & Hlen). simpl. wp_step. by apply Hrest. }
  do 3 wp_step. apply Hrest; [by repeat split | done |].
  split; [apply length_tabulate3 | done].
Qed.

(** ** The whole of [train] *)

Lemma untouched_same s s' : heap s' = heap s -> untouched s s'.
Proof. intros Hh id p Hp. exists p. by rewrite Hh. Qed.

Lemma keeps_new_untouched s s1 s' x :
  heap s1 = heap s ++ [x] -> keeps (length (heap s)) s1 s' -> untouched s s'.
Proof.
  intros Hh (_ & _ & _ & Hk) id p Hp.
  assert (id < length (heap s))%nat as Hlt by (by eapply lookup_lt_Some).
  destruct (Hk id p) as (p' & Hp' & Hr & Hd).
  { rewrite Hh. by apply lookup_app_l_Some. }
  destruct Hd as [Hd Hsame]; [lia|]. by exists p'.
Qed.

Lemma run_steps_S len n epochs :
  run_steps len n (S epochs) = run_steps len n epochs ++ epoch_steps len n epochs.
Proof. unfold run_steps. rewrite seq_S, flat_map_app. simpl. by rewrite app_nil_r. Qed.

Lemma epochs_spec cfg tr dir pid n o sch s :
  Forall (fun id => id = pid) (opt_params o) ->
  wp (for_range n 0 (train_epoch E cfg tr dir pid) (o, sch))
     (fun _ s' =>
        keeps pid s s' /\
        (n <> 0%nat -> loader_len E <> 0%nat) /\
        exists evs,
          log s' = log s ++ evs /\
          (forall tag, tag ∈ metric_tags ->
             steps_of tag evs = run_steps (epoch_length tr) (loader_len E) n) /\
          map fst (saved_patches evs) =
            map (fun e => osp_join dir (patch_file_name (patch_name cfg) e)) (seq 0 n) /\
          Forall (fun x => Forall in_unit_or_nan (data x.2)) (saved_patches evs))
     (fun _ s' => keeps pid s s') s.
Proof.
  intros Hids.
  apply wp_for_range with (I := fun e '(o', _) s' =>
    keeps pid s s' /\ opt_params o' = opt_params o /\
    (e <> 0%nat -> loader_len E <> 0%nat) /\
    exists evs,
      log s' = log s ++ evs /\
      (forall tag, tag ∈ metric_tags ->
         steps_of tag evs = run_steps (epoch_length tr) (loader_len E) e) /\
      map fst (saved_patches evs) =
        map (fun e => osp_join dir (patch_file_name (patch_name cfg) e)) (seq 0 e) /\
      Forall (fun x => Forall in_unit_or_nan (data x.2)) (saved_patches evs)).
  - split; [apply keeps_refl|]. do 2 (split; [done|]).
    exists []. by rewrite app_nil_r.
  - intros e [o1 sch1] t _ (Hk & Hps & _ & evs & Hlog & Hsteps & Hpaths & Hunit).
    assert (Forall (fun id => id = pid) (opt_params o1)) as Hids1 by (by rewrite Hps).
    wp_apply (train_epoch_spec cfg tr dir pid e o1 sch1 t Hids1) as Hrun Hspec.
    + destruct a as [o2 sch2].
      destruct Hspec as (Hk2 & Hps2 & Hlen & _ & p & evs2 & Hp & Hcl & Hlog2 & Hsteps2 & Hsaved2).
      split; [by eapply keeps_trans|]. split; [congruence|]. split; [done|].
      exists (evs ++ evs2). split; [by rewrite Hlog2, Hlog, <- app_assoc|].
      split; [|split].
      * intros tag Htag.
        by rewrite steps_of_app, run_steps_S, (Hsteps tag Htag), (Hsteps2 tag Htag).
      * by rewrite saved_patches_app, map_app, Hpaths, Hsaved2, seq_S, map_app.
      * rewrite saved_patches_app, Hsaved2. apply Forall_app. split; [done|].
        by repeat constructor.
    + by eapply keeps_trans.
  - intros [o' sch'] t (Hk & _ & Hlen & Hevs). done.
Qed.

(** [train] up to its loop: what lines 115-148 leave to the epochs, and the
    three ways they can end the run. *)
Lemma wp_train cfg tr s (Q : unit -> St World -> Prop) QE :
  (forall r, cfg_loss_target s = TargetFn r ->
     QE TypeError
        (mkSt (world s) (heap s) (cfg_loss_target s) (cfg_log_dir s)
           (log s ++ failed_setup_events cfg (cfg_log_dir s)))) ->
  (forall str, cfg_loss_target s = TargetStr str -> select_loss_target str = None ->
     QE (NotImplementedError ("Loss target " +:+ str +:+ " not been implemented"))
        (mkSt (world s) (heap s) (cfg_loss_target s) (cfg_log_dir s)
           (log s ++ setup_events cfg (cfg_log_dir s)))) ->
  (forall str r s1 x,
     cfg_loss_target s = TargetStr str -> select_loss_target str = Some r ->
     heap s1 = heap s ++ [mkParam x true None] -> patch_of_source cfg x ->
     cfg_loss_target s1 = TargetFn r -> cfg_log_dir s1 = cfg_log_dir s ->
     log s1 = log s ++ setup_events cfg (cfg_log_dir s) ->
     (Qle_bool 0 (start_lr cfg) = false -> QE ValueError s1) /\
     (Qle_bool 0 (start_lr cfg) = true ->
      wp (bind
            (for_range (n_epochs cfg) 0
               (train_epoch E cfg tr (osp_join (cfg_log_dir s) "patches")
                  (length (heap s)))
               (mkOpt [length (heap s)] (start_lr cfg) [], ReduceLROnPlateau.init 50))
            (fun _ => ret tt)) Q QE s1)) ->
  wp (train E cfg tr) Q QE s.
Proof.
  intros Hfn Hnone Hrest.
  unfold train, dump_cfg, fix_loss_target, Adam.
  assert (forall str r s1, cfg_loss_target s = TargetStr str ->
            select_loss_target str = Some r ->
            heap s1 = heap s -> cfg_loss_target s1 = TargetFn r ->
            cfg_log_dir s1 = cfg_log_dir s ->
            log s1 = log s ++ setup_events cfg (cfg_log_dir s) ->
            wp (init_patch E cfg)
               (fun adv_patch_cpu s' =>
                  wp (bind (if Qle_bool 0 (start_lr cfg)
                            then ret (mkOpt [adv_patch_cpu] (start_lr cfg) [])
                            else raise ValueError)
                        (fun optimizer =>
                           bind
                             (for_range (n_epochs cfg) 0
                                (train_epoch E cfg tr
                                   (osp_join (cfg_log_dir s) "patches") adv_patch_cpu)
                                (optimizer, ReduceLROnPlateau.init 50))
                             (fun _ => ret tt))) Q QE s') QE s1) as Hpatch.
  { intros str r s1 Hstr Hsel Hh Ht Hd Hl.
    wp_apply (init_patch_spec cfg s1) as Hinit Hspec; [|done].
    destruct Hspec as (-> & Ht2 & Hd2 & Hl2 & x & Hh2 & Hx).
    rewrite Hh in *.
    destruct (Hrest str r s' x Hstr Hsel) as [Hneg Hpos]; try congruence.
    wp_step. destruct (Qle_bool 0 (start_lr cfg)).
    - apply wp_ret. by apply Hpos.
    - apply wp_raise. by apply Hneg. }
  unfold setup_events, failed_setup_events in *.
  destruct (debug_mode cfg); wp_steps; simpl in *.
  all: try (rewrite <- !app_assoc; simpl; first [by eapply Hfn | by eapply Hnone]).
  all: eapply Hpatch; simpl; try done; by rewrite <- !app_assoc.
Qed.

Lemma setup_events_silent cfg dir : Forall silent (setup_events cfg dir).
Proof. unfold setup_events. destruct (debug_mode cfg); by repeat constructor. Qed.

Lemma train_spec cfg tr s :
  wp (train E cfg tr)
     (fun _ s' =>
        untouched s s' /\ length (heap s') = S (length (heap s)) /\
        (exists str r, cfg_loss_target s = TargetStr str /\
           select_loss_target str = Some r /\ cfg_loss_target s' = TargetFn r) /\
        (n_epochs cfg <> 0%nat -> loader_len E <> 0%nat) /\
        exists evs,
          log s' = log s ++ evs /\
          (forall tag, tag ∈ metric_tags ->
             steps_of tag evs = run_steps (epoch_length tr) (loader_len E) (n_epochs cfg)) /\
          map fst (saved_patches evs) =
            map (patch_path cfg (cfg_log_dir s)) (seq 0 (n_epochs cfg)) /\
          Forall (fun x => Forall in_unit_or_nan (data x.2)) (saved_patches evs))
     (fun _ s' =>
        untouched s s' /\
        forall str r, cfg_loss_target s = TargetStr str ->
          select_loss_target str = Some r -> cfg_loss_target s' = TargetFn r) s.
Proof.
  apply wp_train.
  - intros r Ht. split; [by apply untouched_same | intros; congruence].
  - intros str Hstr Hnone. split; [by apply untouched_same | intros; congruence].
  - intros str r s1 x Hstr Hsel Hh Hx Ht Hd Hl.
    assert (untouched s s1) as Hun.
    { intros id p Hp. exists p. rewrite Hh. split; [|done].
      by apply lookup_app_l_Some. }
    split.
    { intros _. split; [done|]. intros str' r' Hstr' Hsel'. congruence. }
    intros _. wp_step.
    eapply wp_mono;
      [apply (epochs_spec cfg tr _ (length (heap s)) (n_epochs cfg) _ _ s1);
       by repeat constructor | |].
    + intros _ s2 (Hk & Hlen & evs & Hlog & Hsteps & Hpaths & Hunit).
      apply wp_ret. split; [by eapply keeps_new_untouched|].
      split.
      { destruct Hk as (_ & _ & Hlen' & _).
        rewrite Hlen', Hh, length_app. simpl. lia. }
      split.
      { exists str, r. do 2 (split; [done|]).
        destruct Hk as (Hk & _). congruence. }
      split; [done|].
      pose proof (setup_events_silent cfg (cfg_log_dir s)) as Hpre.
      exists (setup_events cfg (cfg_log_dir s) ++ evs).
      split; [by rewrite Hlog, Hl, <- app_assoc|].
      split; [|split].
      * intros tag Htag.
        by rewrite steps_of_app, (steps_of_silent _ _ Hpre), (Hsteps tag).
      * by rewrite saved_patches_app, (saved_patches_silent _ Hpre).
      * by rewrite saved_patches_app, (saved_patches_silent _ Hpre).
    + intros e s2 Hk. simpl in Hk. split; [by eapply keeps_new_untouched|].
      intros str' r' Hstr' Hsel'. destruct Hk as (Hk & _). congruence.
Qed.

(** ** [__init__] *)

Lemma alloc_all_run ps s :
  alloc_all ps s = (Ok (seq (length (heap s)) (length ps)), with_heap s (heap s ++ ps)).
Proof.
  revert s. induction ps as [|p ps IH]; intros s; simpl.
  - unfold ret, with_heap. rewrite app_nil_r. by destruct s.
  - unfold bind, alloc at 1. rewrite IH. simpl. unfold ret, with_heap. simpl.
    rewrite length_app. simpl. rewrite Nat.add_1_r. by rewrite <- app_assoc.
Qed.

Lemma freeze_run (h1 mid h2 : list Param) s :
  for_each (seq (length h1) (length mid))
    (fun id => modify id (set_requires_grad false))
    (with_heap s (h1 ++ mid ++ h2)) =
  (Ok tt, with_heap s (h1 ++ map (set_requires_grad false) mid ++ h2)).
Proof.
  revert h1. induction mid as [|p mid IH]; intros h1; simpl; [done|].
  unfold bind, modify at 1. simpl.
  rewrite lookup_app_r, Nat.sub_diag by done. simpl.
  rewrite insert_app_r_alt, Nat.sub_diag by done. simpl.
  specialize (IH (h1 ++ [set_requires_grad false p])).
  rewrite length_app, Nat.add_1_r, <- !app_assoc in IH. simpl in IH.
  unfold with_heap in *. simpl in *. exact IH.
Qed.

Lemma probe_ports_spec d port s :
  wp (probe_ports E d port)
     (fun _ s' =>
        same_store s s' /\ exists evs, log s' = log s ++ evs /\ Forall silent evs)
     (fun _ _ => False) s.
Proof.
  revert port s. induction d as [|d IH]; intros port s; simpl.
  - wp_steps; (split; [by repeat split|]); exists []; by rewrite app_nil_r.
  - wp_step. wp_step. destruct (a && (port <? max_port)%nat).
    + wp_steps. eapply wp_mono; [apply IH | | done].
      intros ? s' ((Hh & Ht & Hd) & evs & Hlog & Hsilent). simpl in *.
      split; [by repeat split|].
      eexists. split; [rewrite Hlog, <- app_assoc; reflexivity|].
      constructor; [done | done].
    + wp_steps. split; [by repeat split|]. exists []. by rewrite app_nil_r.
Qed.

(** [__init__] always returns: the loaded parameters are appended to the
    heap, frozen, and nothing but console lines and calls on the metrics
    writer is logged. *)
Lemma init_run cfg s :
  exists s' evs,
    init E cfg s =
      (Ok {| model_params := seq (length (heap s)) (length (load_weights E (world s)).1);
             epoch_length := loader_len E |}, s') /\
    heap s' = heap s ++ map (set_requires_grad false) (load_weights E (world s)).1 /\
    cfg_loss_target s' = cfg_loss_target s /\
    log s' = log s ++ evs /\ Forall silent evs.
Proof.
  assert (wp (init E cfg)
            (fun tr s' =>
               tr = {| model_params :=
                         seq (length (heap s)) (length (load_weights E (world s)).1);
                       epoch_length := loader_len E |} /\
               heap s' = heap s ++
                 map (set_requires_grad false) (load_weights E (world s)).1 /\
               cfg_loss_target s' = cfg_loss_target s /\
               exists evs, log s' = log s ++ evs /\ Forall silent evs)
            (fun _ _ => False) s) as H.
  { unfold init. wp_step. wp_step. rewrite H. simpl. wp_step.
    apply wp_eqn; intros ? s1 Halloc; rewrite alloc_all_run in Halloc;
      inversion Halloc; subst; clear Halloc.
    wp_step.
    pose proof (freeze_run (heap s) a []
                  (mkSt w (heap s) (cfg_loss_target s) (cfg_log_dir s) (log s))) as Hf.
    unfold with_heap in *. simpl in *. rewrite !app_nil_r in Hf.
    apply wp_eqn; intros ? s2 Hfreeze; rewrite Hf in Hfreeze;
      inversion Hfreeze; subst; clear Hfreeze Hf.
    wp_steps. unfold init_tensorboard. wp_step. cbv iota. wp_step.
    eapply wp_mono; [apply probe_ports_spec | | done].
    intros port s3 ((Hh & Ht & Hd) & evs & Hlog & Hsilent). simpl in *.
    wp_steps.
    apply wp_for_each with (I := fun s' =>
      heap s' = heap s ++ map (set_requires_grad false) a /\
      cfg_loss_target s' = cfg_loss_target s /\
      exists evs, log s' = log s ++ evs /\ Forall silent evs).
    - simpl. do 2 (split; [done|]).
      eexists. split; [rewrite Hlog, <- !app_assoc; reflexivity|].
      apply Forall_app. split; [done|]. by repeat constructor.
    - intros kv s4 _ (Hh4 & Ht4 & evs4 & Hlog4 & Hsilent4). wp_step.
      do 2 (split; [done|]).
      eexists. split; [rewrite Hlog4, <- app_assoc; reflexivity|].
      apply Forall_app. split; [done|]. by repeat constructor.
    - intros s4 (Hh4 & Ht4 & Hevs4). by wp_step. }
  destruct (wp_total _ _ _ H) as (tr & s' & Hrun & -> & Hh & Ht & evs & Hlog & Hsilent).
  by exists s', evs.
Qed.

(** ** Runs that return *)


Lemma lookup_live s id : (id < length (heap s))%nat -> heap s !! id = None -> False.
Proof. intros Hlt Hn. apply lookup_ge_None in Hn. lia. Qed.

Lemma read_all_total ids s :
  Forall (fun id => id < length (heap s))%nat ids ->
  wp (read_all ids) (fun _ s' => s' = s) (fun _ _ => False) s.
Proof.
  intros Hids. apply wp_read_all; [done|].
  intros id Hin Hn. rewrite Forall_forall in Hids. by eapply lookup_live; [apply Hids|].
Qed.








End Blocks.

(** ** The scheduler on a plateau *)

Module Plateau.

Import ReduceLROnPlateau.

(** [k] epochs without improvement, short of the patience: the rate stays. *)
Lemma within_patience (s : t) (lr b : Q) (ms : list Q) :
  best s = Some b -> cooldown_counter s = 0%nat ->
  Forall (fun m => is_better m (Some b) = false) ms ->
  (num_bad_epochs s + length ms <= patience s)%nat ->
  rates s lr ms = repeat lr (length ms) /\
  exists e, feed s lr ms =
    (mk (patience s) (Some b) (num_bad_epochs s + length ms) 0 e, lr).
Proof.
  intros Hb Hc Hms. revert s Hb Hc.
  induction Hms as [|m ms Hm _ IH]; intros s Hb Hc Hlen; simpl in Hlen |- *.
  - split; [done|]. exists (last_epoch s). rewrite Nat.add_0_r.
    destruct s; simpl in *; by subst.
  - unfold step. rewrite Hb, Hm, Hc. simpl.
    destruct (patience s <? S (num_bad_epochs s))%nat eqn:Hp.
    { apply Nat.ltb_lt in Hp. lia. }
    destruct (IH (mk (patience s) (Some b) (S (num_bad_epochs s)) 0 (S (last_epoch s))))
      as [Hr [e He]]; simpl; [done | done | lia |].
    rewrite Hr, He. split; [done|]. exists e. simpl. do 2 f_equal. lia.
Qed.

Lemma rates_app (s : t) (lr : Q) (l1 l2 : list Q) :
  rates s lr (l1 ++ l2) =
  rates s lr l1 ++ rates (feed s lr l1).1 (feed s lr l1).2 l2.
Proof.
  revert s lr. induction l1 as [|x l1 IH]; intros s lr; simpl; [done|].
  destruct (step s lr x) as [s' lr']. by rewrite IH.
Qed.

Lemma feed_app (s : t) (lr : Q) (l1 l2 : list Q) :
  feed s lr (l1 ++ l2) = feed (feed s lr l1).1 (feed s lr l1).2 l2.
Proof.
  revert s lr. induction l1 as [|x l1 IH]; intros s lr; simpl; [done|].
  destruct (step s lr x) as [s' lr']. by rewrite IH.
Qed.

(** The epoch that exceeds the patience. *)
Lemma breaching_step (s : t) (lr b m : Q) :
  best s = Some b -> cooldown_counter s = 0%nat ->
  num_bad_epochs s = patience s ->
  is_better m (Some b) = false ->
  step s lr m = (mk (patience s) (Some b) 0 0 (S (last_epoch s)), reduce_lr lr).
Proof.
  intros Hb Hc Hn Hm. unfold step. rewrite Hb, Hm, Hc, Hn. simpl.
  assert ((patience s <? S (patience s))%nat = true) as -> by (apply Nat.ltb_lt; lia).
  done.
Qed.

(** A breached window: [patience + 1] epochs in a row without improvement.
    The rate is left alone for [patience] epochs and goes through
    [reduce_lr] once, at the last; the scheduler then starts counting
    again. *)
Lemma breached_window (s : t) (lr b : Q) (ms : list Q) :
  best s = Some b -> cooldown_counter s = 0%nat -> num_bad_epochs s = 0%nat ->
  Forall (fun m => is_better m (Some b) = false) ms ->
  length ms = S (patience s) ->
  rates s lr ms = repeat lr (patience s) ++ [reduce_lr lr] /\
  exists e, feed s lr ms = (mk (patience s) (Some b) 0 0 e, reduce_lr lr).
Proof.
  intros Hb Hc Hn Hms Hlen.
  destruct (exists_last (l := ms)) as (ms0 & m & ->).
  { intros ->. done. }
  rewrite length_app in Hlen. simpl in Hlen.
  apply Forall_app in Hms as [Hms0 Hm]. rewrite Forall_singleton in Hm.
  destruct (within_patience s lr b ms0) as [Hr [e He]]; try done; [lia|].
  rewrite rates_app, feed_app, Hr, He. simpl.
  rewrite (breaching_step _ lr b m); simpl; try done; try lia.
   assert (length ms0 = patience s) as -> by lia.
  split; [done|]. by eexists.
Qed.

(** What [reduce_lr] does to a rate: a tenth of it when that moves it by
    more than [eps], nothing otherwise. *)
Lemma reduce_lr_cases (lr : Q) :
  (0 <= lr)%Q ->
  ((eps < lr - lr * factor)%Q /\ (reduce_lr lr == lr * factor)%Q /\ (reduce_lr lr < lr)%Q) \/
  ((lr - lr * factor <= eps)%Q /\ reduce_lr lr = lr).
Proof.
  intros Hlr. unfold reduce_lr, Qltb.
  assert (Qmax (lr * factor) min_lr == lr * factor)%Q as Hmax.
  { apply Q.max_l. unfold min_lr, factor. nra. }
  destruct (Qle_bool (lr - Qmax (lr * factor) min_lr) eps) eqn:Hle; simpl.
  - right. split; [|done]. apply Qle_bool_iff in Hle. by rewrite Hmax in Hle.
  - left. assert (~ (lr - Qmax (lr * factor) min_lr <= eps)%Q) as Hn.
    { intros H. apply Qle_bool_iff in H. congruence. }
    rewrite Hmax in Hn. apply Qnot_le_lt in Hn.
    split; [done|]. split; [done|]. rewrite Hmax.
    unfold eps in Hn. lra.
Qed.

End Plateau.

(** ** The steps of a run increase *)

Lemma sorted_lt_app (l1 l2 : list nat) :
  StronglySorted lt l1 -> StronglySorted lt l2 ->
  (forall a b, a ∈ l1 -> b ∈ l2 -> (a < b)%nat) ->
  StronglySorted lt (l1 ++ l2).
Proof.
  intros H1 H2 H. induction H1 as [|a l1 Hs IH Ha]; simpl; [done|].
  constructor.
  - apply IH. intros x y Hx Hy. apply H; [by right | done].
  - apply Forall_app. split; [done|].
    apply Forall_forall. intros y Hy. apply H; [left | done].
Qed.

Lemma emission_indices_bound n j : j ∈ emission_indices n -> (j < n)%nat.
Proof.
  unfold emission_indices. rewrite list_elem_of_In, List.filter_In, in_seq. lia.
Qed.

Lemma emission_indices_sorted n : StronglySorted lt (emission_indices n).
Proof.
  induction n as [|n IH]; [constructor|].
  rewrite emission_indices_S. apply sorted_lt_app; [done | |].
  - destruct (n mod 15 =? 0)%nat; repeat constructor.
  - intros a b Ha Hb. apply emission_indices_bound in Ha.
    destruct (n mod 15 =? 0)%nat; [|by apply elem_of_nil in Hb].
    apply list_elem_of_singleton in Hb. lia.
Qed.

Lemma epoch_steps_bounds len n epoch x :
  (n <= len)%nat -> x ∈ epoch_steps len n epoch ->
  (len * epoch <= x < len * S epoch)%nat.
Proof.
  intros Hn. unfold epoch_steps. rewrite list_elem_of_fmap.
  intros (j & -> & Hj). apply emission_indices_bound in Hj. nia.
Qed.

Lemma epoch_steps_sorted len n epoch : StronglySorted lt (epoch_steps len n epoch).
Proof.
  unfold epoch_steps. induction (emission_indices_sorted n) as [|j l _ IH Hj]; simpl.
  - constructor.
  - constructor; [done|]. apply Forall_map. eapply Forall_impl; [done|].
    simpl. intros. lia.
Qed.

Lemma run_steps_bound len n epochs x :
  (n <= len)%nat -> x ∈ run_steps len n epochs -> (x < len * epochs)%nat.
Proof.
  intros Hn. induction epochs as [|e IH].
  - unfold run_steps. simpl. by intros ?%elem_of_nil.
  - rewrite run_steps_S, elem_of_app. intros [Hx|Hx].
    + specialize (IH Hx). nia.
    + apply epoch_steps_bounds in Hx; [lia | done].
Qed.

(** Across a run the steps of the metrics strictly increase, provided an
    epoch has no more batches than [len], the factor of line 198. *)
Lemma run_steps_sorted len n epochs :
  (n <= len)%nat -> StronglySorted lt (run_steps len n epochs).
Proof.
  intros Hn. induction epochs as [|e IH]; [constructor|].
  rewrite run_steps_S. apply sorted_lt_app; [done | apply epoch_steps_sorted |].
  intros a b Ha Hb. apply run_steps_bound in Ha; [|done].
  apply epoch_steps_bounds in Hb; [lia | done].
Qed.

(** ** Further facts about one batch *)

Section Batch.

Context {World OptState : Type} (E : Externals World OptState).

Implicit Types s : St World.



(** And what it clamps is what Adam made of the gradient of this batch. *)
Lemma update_patch_effect tr pid o l s p o' s' :
  opt_params o = [pid] ->
  heap s !! pid = Some p ->
  requires_grad p = true ->
  p_grad p = None ->
  pid ∉ model_params tr ->
  update_patch E tr pid o l s = (Ok o', s') ->
  exists st d,
    adam_update E (state_of o pid) (lr o) (p_data p)
      (autograd E (loss l) pid (world s)).1 = (st, d) /\
    heap s' !! pid = Some (mkParam (clamp_ 0 1 d) true None) /\
    o' = set_state o pid st.
Proof.
  intros Hids Hp Hreq Hgrad Hnotin Hrun.
  destruct (adam_update E (state_of o pid) (lr o) (p_data p)
              (autograd E (loss l) pid (world s)).1) as [st d] eqn:Hadam.
  exists st, d. split; [done|].
  assert (wp (update_patch E tr pid o l)
            (fun o' s' =>
               heap s' !! pid = Some (mkParam (clamp_ 0 1 d) true None) /\
               o' = set_state o pid st)
            (fun _ _ => True) s) as H; [|exact (wp_returns _ _ _ _ _ _ H Hrun)].
  unfold update_patch, backward. simpl.
  apply wp_bind, wp_bind, wp_bind, wp_read; [|done]. intros p0 Hp0.
  assert (p0 = p) as -> by congruence. rewrite Hreq.
  apply wp_bind, wp_ext. intros g w1 Hg. simpl.
  apply wp_modify; [|done]. simpl. intros p1 Hp1.
  assert (p1 = p) as -> by congruence. rewrite Hgrad. simpl.
  rewrite Hg in Hadam. simpl in Hadam.
  set (pg := set_grad (Some g) p).
  apply wp_for_each with (I := fun t => heap t !! pid = Some pg); [| |].
  - simpl. apply list_lookup_insert_eq. by eapply lookup_lt_Some.
  - intros id t Hin Ht.
    assert (id <> pid) as Hne by (intros ->; done).
    wp_steps; simpl; try done; by rewrite list_lookup_insert_ne.
  - intros t Ht.
    apply wp_bind. unfold optimizer_step. rewrite Hids. simpl.
    apply wp_bind, wp_read; [|done]. intros p2 Hp2.
    assert (p2 = pg) as -> by congruence. simpl. rewrite Hadam.
    apply wp_bind, wp_modify; [|done]. simpl. intros p3 Hp3.
    assert (p3 = pg) as -> by congruence.
    apply wp_ret, wp_bind. unfold zero_grad. simpl. rewrite Hids. simpl.
    apply wp_bind, wp_modify; [|done]. simpl. intros p4 Hp4.
    rewrite list_lookup_insert_eq in Hp4 by (by eapply lookup_lt_Some).
    injection Hp4 as <-.
    apply wp_ret, wp_bind, wp_modify; [|done]. simpl. intros p5 Hp5.
    rewrite list_lookup_insert_eq in Hp5
      by (rewrite length_insert; by eapply lookup_lt_Some).
    injection Hp5 as <-.
    apply wp_ret. split; [|done]. simpl.
    rewrite list_lookup_insert_eq
      by (rewrite !length_insert; by eapply lookup_lt_Some).
    unfold pg, set_data, set_grad. simpl. by rewrite Hreq.
Qed.


Lemma forward_losses_skips_tv cfg tr pid floor i f s :
  Qeq_bool (tv_mult cfg) 0 = true ->
  forward_losses (with_tv_loss E f) cfg tr pid floor i s =
  forward_losses E cfg tr pid floor i s.
Proof. intros H. unfold forward_losses. rewrite H. reflexivity. Qed.

Lemma forward_losses_skips_nps cfg tr pid floor i f s :
  Qeq_bool (nps_mult cfg) 0 = true ->
  forward_losses (with_nps_loss E f) cfg tr pid floor i s =
  forward_losses E cfg tr pid floor i s.
Proof. intros H. unfold forward_losses. rewrite H. reflexivity. Qed.

End Batch.

(** * The statements of the specification *)

Section Claims.

Context {World OptState : Type} (E : Externals World OptState).

Implicit Types s : St World.
Implicit Types o : Optimizer OptState.



Lemma select_loss_target_cases str r :
  select_loss_target str = Some r <->
  (str = "obj" /\ r = RuleObj) \/ (str = "cls" /\ r = RuleCls) \/
  (str = "obj * cls" /\ r = RuleObjCls).
Proof.
  unfold select_loss_target. split.
  - destruct (String.eqb_spec str "obj"); [intros [= <-]; auto|].
    destruct (String.eqb_spec str "cls"); [intros [= <-]; auto|].
    destruct (String.eqb_spec str "obj * cls"); [intros [= <-]; auto|]. done.
  - intros [[-> ->]|[[-> ->]|[-> ->]]]; reflexivity.
Qed.

(** C3.  The configured string selects exactly one of the three rules:
    ["obj"], ["cls"] and ["obj * cls"] select objectness, class score and
    their product, and no other string selects anything.  A selected rule
    replaces the string in [cfg] and stays there to the end of [train],
    however the run ends.  With any other string [train] raises
    [NotImplementedError] having only made its directories and dumped
    [cfg]: no tensor was created, the world (random generators, loader) was
    not touched. *)
Theorem loss_target_dispatch cfg tr s str :
  cfg_loss_target s = TargetStr str ->
  (forall r, select_loss_target str = Some r <->
     (str = "obj" /\ r = RuleObj) \/ (str = "cls" /\ r = RuleCls) \/
     (str = "obj * cls" /\ r = RuleObjCls)) /\
  (forall r, select_loss_target str = Some r ->
     cfg_loss_target (train E cfg tr s).2 = TargetFn r) /\
  (select_loss_target str = None ->
     exists msg s' evs,
       train E cfg tr s = (Raise (NotImplementedError msg), s') /\
       heap s' = heap s /\ world s' = world s /\
       cfg_loss_target s' = TargetStr str /\
       log s' = log s ++ evs /\ Forall setup_event evs).
Proof.
  intros Hstr. split; [apply select_loss_target_cases|]. split.
  - intros r Hsel. pose proof (train_spec E cfg tr s) as H. unfold wp in H.
    destruct (train E cfg tr s) as [[[]|e] s']; simpl.
    + destruct H as (_ & _ & (str' & r' & Hstr' & Hsel' & Ht) & _). congruence.
    + destruct H as (_ & H). by apply (H str r).
  - intros Hnone. unfold train, dump_cfg, fix_loss_target, bind, get_log_dir, emit,
      get_loss_target, raise, ret. simpl.
    destruct (debug_mode cfg); simpl; rewrite Hstr; simpl; rewrite Hnone; simpl.
    + eexists _, _, [_; _; _]. split; [reflexivity|]. simpl.
      do 3 (split; [done|]).
      split; [rewrite <- !app_assoc; reflexivity | by repeat constructor].
    + eexists _, _, [_; _]. split; [reflexivity|]. simpl.
      do 3 (split; [done|]).
      split; [rewrite <- !app_assoc; reflexivity | by repeat constructor].
Qed.

(** C4.  The detector is frozen and stays as it was loaded.  [__init__]
    returns with every parameter of the detector not requiring a gradient;
    [train], however it ends, leaves every tensor that existed before it
    with its data and its flag, and identical if it requires no gradient
    (the optimizer of line 145 holds the patch alone, a tensor [train]
    creates); so at the end of [main] the detector's parameters are the
    loaded ones, frozen. *)
Theorem detector_never_mutated cfg :
  (forall s, exists tr s',
     init E cfg s = (Ok tr, s') /\
     Forall (fun id => exists p, heap s' !! id = Some p /\ requires_grad p = false)
       (model_params tr)) /\
  (forall tr s id p,
     heap s !! id = Some p ->
     exists p', heap (train E cfg tr s).2 !! id = Some p' /\
       p_data p' = p_data p /\ requires_grad p' = requires_grad p /\
       (requires_grad p = false -> p' = p)) /\
  (forall w,
     take (length (load_weights E w).1) (heap (main E cfg (initial_state cfg w)).2) =
     map (set_requires_grad false) (load_weights E w).1).
Proof.
  assert (forall tr s, untouched s (train E cfg tr s).2) as Htrain.
  { intros tr s. pose proof (train_spec E cfg tr s) as H. unfold wp in H.
    destruct (train E cfg tr s) as [[[]|e] s']; simpl; by destruct H. }
  split; [|split].
  - intros s. destruct (init_run E cfg s) as (s' & ? & Hinit & Hh & _).
    eexists _, s'. split; [exact Hinit|]. simpl.
    apply Forall_forall. intros id Hid. apply elem_of_seq in Hid.
    rewrite Hh, lookup_app_r by lia.
    destruct (lookup_lt_is_Some_2 (map (set_requires_grad false) (load_weights E (world s)).1)
                (id - length (heap s))) as [p Hp].
    { rewrite length_map. lia. }
    exists p. split; [done|].
    change map with (@fmap list _) in Hp.
    apply list_lookup_fmap_Some in Hp as (q & -> & _). done.
  - intros tr s id p Hp. by apply Htrain.
  - intros w. unfold main, bind.
    destruct (init_run E cfg (initial_state cfg w)) as (s1 & ? & Hinit & Hh & _).
    rewrite Hinit. simpl in Hh.
    set (tr := {| model_params := _; epoch_length := _ |}).
    specialize (Htrain tr s1).
    destruct (train E cfg tr s1) as [[[]|e] s2]; simpl in *.
    all: apply list_eq; intros i.
    all: destruct (decide (i < length (load_weights E w).1)%nat) as [Hi|Hi].
    all: try (rewrite lookup_take_ge by lia; symmetry; apply lookup_ge_None_2;
              rewrite length_map; lia).
    all: rewrite lookup_take_lt by lia.
    all: destruct (lookup_lt_is_Some_2
                     (map (set_requires_grad false) (load_weights E w).1) i)
           as [p Hp]; [rewrite length_map; lia|].
    all: rewrite Hp; destruct (Htrain i p) as (p' & Hp' & _ & _ & Hsame);
           [by rewrite Hh|].
    all: rewrite Hp'; f_equal; apply Hsame.
    all: change map with (@fmap list _) in Hp.
    all: by apply list_lookup_fmap_Some in Hp as (q & -> & _).
Qed.

(** C5.  [train] creates one tensor, the patch: a run that returns ends
    with one tensor more than it started with.  The patch is made from
    [patch_src]: for [patch_size = (a, b)], ["gray"] gives the
    [3 x b x a] tensor of 0.5 and ["random"] a [3 x b x a] tensor of draws
    of [torch.rand]; any other string is opened as an RGB image and
    resized, and comes out as [3 x a x b], because [Resize] reads the pair
    as (height, width) where [generate_patch] reads it as (width, height).
    So with [patch_size = (4, 2)] the gray patch is [3 x 2 x 4] and the
    patch read from a file is [3 x 4 x 2]. *)
Theorem read_image_transposes_patch_size cfg tr s :
  (exists x s',
     init_patch E cfg s = (Ok (length (heap s)), s') /\
     heap s' = heap s ++ [mkParam x true None] /\
     length (data x) = numel (shape x) /\
     shape x =
       (if String.eqb (patch_src cfg) "gray" || String.eqb (patch_src cfg) "random"
        then [3; (patch_size cfg).2; (patch_size cfg).1]
        else [3; (patch_size cfg).1; (patch_size cfg).2]) /\
     (patch_src cfg = "gray" ->
        x = full [3; (patch_size cfg).2; (patch_size cfg).1] (1 # 2))) /\
  (forall s1, train E cfg tr s = (Ok tt, s1) ->
     length (heap s1) = S (length (heap s))) /\
  (exists s',
     init_patch E (Example.config_4x2 "gray") s = (Ok (length (heap s)), s') /\
     heap s' = heap s ++ [mkParam (full [3; 2; 4] (1 # 2)) true None]) /\
  (exists x s',
     init_patch E (Example.config_4x2 "patch.png") s = (Ok (length (heap s)), s') /\
     heap s' = heap s ++ [mkParam x true None] /\
     shape x = [3; 4; 2] /\ length (data x) = 24%nat).
Proof.
  split; [|split; [|split]].
  - destruct (wp_total _ _ _ (init_patch_spec E cfg s))
      as (pid & s' & Hrun & -> & _ & _ & _ & x & Hh & Hx).
    exists x, s'. do 2 (split; [done|]).
    unfold patch_of_source in Hx. destruct (patch_size cfg) as [a b].
    destruct Hx as [Hlen Hx]. split; [done|]. simpl.
    destruct (String.eqb_spec (patch_src cfg) "gray") as [Hg|Hg]; simpl.
    { subst x. by split. }
    destruct (String.eqb (patch_src cfg) "random"); simpl; by split.
  - intros s1 Hrun.
    by destruct (wp_returns _ _ _ _ _ _ (train_spec E cfg tr s) Hrun) as (_ & Hlen & _).
  - unfold init_patch, generate_patch, bind, ret, alloc, modify. simpl.
    rewrite lookup_app_r, Nat.sub_diag by done. simpl.
    eexists. split; [reflexivity|]. simpl.
    by rewrite insert_app_r_alt, Nat.sub_diag by done.
  - unfold init_patch, read_image, bind, ret, alloc, modify, ext. simpl.
    destruct (image_open_rgb E "patch.png" (world s)) as [img w]. simpl.
    rewrite lookup_app_r, Nat.sub_diag by done. simpl.
    eexists _, _. split; [reflexivity|]. simpl.
    rewrite insert_app_r_alt, Nat.sub_diag by done. simpl.
    split; [reflexivity|]. done.
Qed.

Lemma step_keeps_patience sch rate m :
  ReduceLROnPlateau.patience (ReduceLROnPlateau.step sch rate m).1 =
  ReduceLROnPlateau.patience sch.
Proof.
  unfold ReduceLROnPlateau.step.
  destruct (ReduceLROnPlateau.is_better m (ReduceLROnPlateau.best sch));
    destruct (0 <? ReduceLROnPlateau.cooldown_counter sch)%nat;
    match goal with |- context [(?a <? ?b)%nat] => by destruct (a <? b)%nat end.
Qed.

Lemma epochs_keep_patience cfg tr dir pid n i0 o sch s :
  opt_params o = [pid] ->
  wp (for_range n i0 (train_epoch E cfg tr dir pid) (o, sch))
     (fun acc _ => ReduceLROnPlateau.patience acc.2 = ReduceLROnPlateau.patience sch)
     (fun _ _ => True) s.
Proof.
  intros Hids.
  apply (wp_for_range
           (fun _ acc _ => opt_params acc.1 = [pid] /\
              ReduceLROnPlateau.patience acc.2 = ReduceLROnPlateau.patience sch));
    [done | | by intros x t [_ H]].
  intros i [o1 sch1] t _ [Hp Hpat]. simpl in Hp, Hpat.
  assert (Forall (fun id => id = pid) (opt_params o1)) as Hall
    by (rewrite Hp; by repeat constructor).
  eapply wp_mono; [apply (train_epoch_spec E cfg tr dir pid i o1 sch1 t Hall) | | done].
  intros [o2 sch2] t2 (_ & Hps & _ & (m & _ & _ & Hstep) & _). simpl.
  split; [congruence|].
  rewrite <- Hpat, <- (step_keeps_patience sch1 (lr o1) m), <- Hstep. done.
Qed.

(** C6, as the code has it.  An epoch that returns had at least one batch;
    the value it gives to [scheduler.step] is the sum of the totals of its
    batches divided by their number, and the optimizer's rate afterwards is
    the one the scheduler answers; the scheduler's patience is the one it
    had.  On a plateau a scheduler lets the rate be for [patience] epochs
    in a row without improvement and applies [reduce_lr] once, at the next;
    then it counts from zero again.  [reduce_lr] divides a rate by ten when
    that lowers it by more than [eps = 1e-8] and leaves it as it is
    otherwise.  The epochs of a run of [train] that returns are those of
    the loop of lines 150-224 started on the fresh patch with the optimizer
    of line 146 and the scheduler of line 147, whose patience is 50, and
    the scheduler still has patience 50 at the end. *)
Theorem epoch_mean_feeds_plateau_scheduler cfg tr dir pid epoch o sch s o' sch' s' :
  opt_params o = [pid] ->
  train_epoch E cfg tr dir pid epoch (o, sch) s = (Ok (o', sch'), s') ->
  (loader_len E <> 0%nat /\
   length (epoch_totals E cfg tr pid epoch o s) = loader_len E /\
   exists m,
     (m == Qsum (epoch_totals E cfg tr pid epoch o s) /
           inject_Z (Z.of_nat (loader_len E)))%Q /\
     (sch', lr o') = ReduceLROnPlateau.step sch (lr o) m) /\
  (forall sc rate b ms,
     ReduceLROnPlateau.best sc = Some b ->
     ReduceLROnPlateau.cooldown_counter sc = 0%nat ->
     ReduceLROnPlateau.num_bad_epochs sc = 0%nat ->
     Forall (fun m => ReduceLROnPlateau.is_better m (Some b) = false) ms ->
     length ms = S (ReduceLROnPlateau.patience sc) ->
     (0 <= rate)%Q ->
     ReduceLROnPlateau.rates sc rate ms =
       repeat rate (ReduceLROnPlateau.patience sc) ++ [ReduceLROnPlateau.reduce_lr rate] /\
     (exists e, ReduceLROnPlateau.feed sc rate ms =
        (ReduceLROnPlateau.mk (ReduceLROnPlateau.patience sc) (Some b) 0 0 e,
         ReduceLROnPlateau.reduce_lr rate)) /\
     (((ReduceLROnPlateau.eps < rate - rate * ReduceLROnPlateau.factor)%Q /\
       (ReduceLROnPlateau.reduce_lr rate == rate * ReduceLROnPlateau.factor)%Q /\
       (ReduceLROnPlateau.reduce_lr rate < rate)%Q) \/
      ((rate - rate * ReduceLROnPlateau.factor <= ReduceLROnPlateau.eps)%Q /\
       ReduceLROnPlateau.reduce_lr rate = rate))) /\
  ReduceLROnPlateau.patience sch' = ReduceLROnPlateau.patience sch /\
  (forall s0 s1,
     train E cfg tr s0 = (Ok tt, s1) ->
     exists sa oe sce,
       for_range (n_epochs cfg) 0
         (train_epoch E cfg tr (osp_join (cfg_log_dir s0) "patches")
            (length (heap s0)))
         (mkOpt [length (heap s0)] (start_lr cfg) [], ReduceLROnPlateau.init 50)
         sa = (Ok (oe, sce), s1) /\
       ReduceLROnPlateau.patience sce = 50%nat).
Proof.
  intros Hids Hrun.
  assert (Forall (fun id => id = pid) (opt_params o)) as Hall
    by (rewrite Hids; by repeat constructor).
  destruct (wp_returns _ _ _ _ _ _
              (train_epoch_spec E cfg tr dir pid epoch o sch s Hall) Hrun)
    as (_ & _ & Hlen & (m & Hm & Hl & Hstep) & _).
  split; [|split; [|split]].
  - split; [done|]. split; [done|]. by exists m.
  - intros sc rate b ms Hb Hc Hn Hms Hlen' Hrate.
    destruct (Plateau.breached_window sc rate b ms Hb Hc Hn Hms Hlen') as [Hr Hf].
    split; [done|]. split; [done|]. by apply Plateau.reduce_lr_cases.
  - by rewrite <- (step_keeps_patience sch (lr o) m), <- Hstep.
  - intros s0 s1 Htrain.
    refine (wp_returns _ _ _ _ _ _
              (wp_train E cfg tr s0
                 (fun _ s1 => exists sa oe sce,
                    for_range (n_epochs cfg) 0
                      (train_epoch E cfg tr (osp_join (cfg_log_dir s0) "patches")
                         (length (heap s0)))
                      (mkOpt [length (heap s0)] (start_lr cfg) [],
                       ReduceLROnPlateau.init 50) sa = (Ok (oe, sce), s1) /\
                    ReduceLROnPlateau.patience sce = 50%nat)
                 (fun _ _ => True) _ _ _) Htrain); [done | done |].
    intros str r sa x _ _ _ _ _ _ _. split; [done|]. intros _.
    apply wp_bind, wp_eqn; [|done].
    intros [oe sce] sb Hloop. apply wp_ret. exists sa, oe, sce. split; [done|].
    apply (wp_returns _ _ _ _ _ _
             (epochs_keep_patience cfg tr (osp_join (cfg_log_dir s0) "patches")
                (length (heap s0)) (n_epochs cfg) 0
                (mkOpt [length (heap s0)] (start_lr cfg) [])
                (ReduceLROnPlateau.init 50) sa eq_refl) Hloop).
Qed.

(** C7.  An epoch that returns has written exactly one patch image: the
    patch as it is at the end of the epoch, after the clamp of its last
    batch (each of its values a number of [[0, 1]], or NaN where the update
    left one), under the name made of the patch name and the number of the
    epoch.  A run that returns has written one such image for each of its
    epochs, in order, in the directory [patches] of the log directory, and
    no two under the same name. *)
Theorem one_patch_image_per_epoch cfg tr dir pid epoch o sch s o' sch' s' :
  opt_params o = [pid] ->
  train_epoch E cfg tr dir pid epoch (o, sch) s = (Ok (o', sch'), s') ->
  (exists p evs,
     heap s' !! pid = Some p /\ Forall in_unit_or_nan (data (p_data p)) /\
     log s' = log s ++ evs /\
     saved_patches evs =
       [(osp_join dir (patch_file_name (patch_name cfg) epoch), p_data p)]) /\
  (forall s0 s1,
     train E cfg tr s0 = (Ok tt, s1) ->
     exists evs,
       log s1 = log s0 ++ evs /\
       map fst (saved_patches evs) =
         map (fun e => osp_join (osp_join (cfg_log_dir s0) "patches")
                         (patch_file_name (patch_name cfg) e))
             (seq 0 (n_epochs cfg)) /\
       NoDup (map fst (saved_patches evs)) /\
       Forall (fun x => Forall in_unit_or_nan (data x.2)) (saved_patches evs)).
Proof.
  intros Hids Hrun. split.
  - assert (Forall (fun id => id = pid) (opt_params o)) as Hall
      by (rewrite Hids; by repeat constructor).
    destruct (wp_returns _ _ _ _ _ _
                (train_epoch_spec E cfg tr dir pid epoch o sch s Hall) Hrun)
      as (_ & _ & _ & _ & p & evs & Hp & Hunit & Hlog & _ & Hsaved).
    by exists p, evs.
  - intros s0 s1 Htrain.
    destruct (wp_returns _ _ _ _ _ _ (train_spec E cfg tr s0) Htrain)
      as (_ & _ & _ & _ & evs & Hlog & _ & Hpaths & Hunit).
    exists evs. do 2 (split; [done|]). split; [|done].
    rewrite Hpaths. apply patch_paths_NoDup.
Qed.

(** C8.  A batch step that returns has written metrics exactly when the
    index of the batch in its epoch is a multiple of 15: then, and only
    then, the four losses of the batch, the epoch, the learning rate and the
    patch as the step leaves it, all under the step
    [epoch_length * epoch + i_batch].  Over a run of [main] that returns,
    each tag was written under the steps of the batches 0, 15, 30, ... of
    every epoch, in order, and these steps strictly increase. *)
Theorem metrics_every_15_batches cfg tr pid floor epoch i o ep s o' ep' s' :
  opt_params o = [pid] ->
  batch_step E cfg tr pid floor epoch i (o, ep) s = (Ok (o', ep'), s') ->
  (exists l s1 p pre post,
     forward_losses E cfg tr pid floor i s = (Ok l, s1) /\
     heap s' !! pid = Some p /\
     log s' = log s ++ pre ++
       (if (i mod 15 =? 0)%nat then
          let iteration := (epoch_length tr * epoch + i)%nat in
          [AddScalar "total_loss" (loss l) iteration;
           AddScalar "loss/det_loss" (det_loss l) iteration;
           AddScalar "loss/nps_loss" (nps_loss_w l) iteration;
           AddScalar "loss/tv_loss" (tv_loss_w l) iteration;
           AddScalar "misc/epoch" (inject_Z (Z.of_nat epoch)) iteration;
           AddScalar "misc/learning_rate" (lr o') iteration;
           AddImage "patch" (p_data p) iteration]
        else []) ++ post /\
     Forall silent pre /\ Forall silent post) /\
  (forall w s1,
     main E cfg (initial_state cfg w) = (Ok tt, s1) ->
     (forall tag, tag ∈ metric_tags ->
        steps_of tag (log s1) =
          run_steps (loader_len E) (loader_len E) (n_epochs cfg)) /\
     StronglySorted lt (run_steps (loader_len E) (loader_len E) (n_epochs cfg))).
Proof.
  intros Hids Hrun. split.
  - assert (Forall (fun id => id = pid) (opt_params o)) as Hall
      by (rewrite Hids; by repeat constructor).
    destruct (wp_returns _ _ _ _ _ _
                (batch_step_spec E cfg tr pid floor epoch i o ep s Hall) Hrun)
      as (_ & Hlr & _ & l & s1 & _ & _ & p & pre & post & Hfwd & _ & _ & _ & _ &
          Hp & _ & Hlog & Hpre & Hpost).
    exists l, s1, p, pre, post. rewrite Hlr. by repeat split.
  - intros w s1 Hmain. split; [|by apply run_steps_sorted].
    unfold main in Hmain. apply bind_returns in Hmain as (tr0 & s0 & Hinit & Htrain).
    destruct (init_run E cfg (initial_state cfg w))
      as (s0' & evs0 & Hinit' & _ & _ & Hlog0 & Hsilent0).
    rewrite Hinit in Hinit'. inversion Hinit'; subst. clear Hinit'.
    destruct (wp_returns _ _ _ _ _ _ (train_spec E cfg _ s0') Htrain)
      as (_ & _ & _ & _ & evs & Hlog & Hsteps & _).
    intros tag Htag. rewrite Hlog, Hlog0. simpl.
    rewrite steps_of_app, (steps_of_silent _ evs0 Hsilent0). by apply Hsteps.
Qed.

(** C10, as the code has it.  With a zero TV weight the smoothness module
    is not consulted (any other module gives the same result) and the
    smoothness term is [max(0, min_tv_loss)], which is the floor itself when
    the floor is not negative.  With a zero NPS weight the printability
    module is not consulted and the printability term is zero. *)
Theorem zero_weight_skips_loss cfg tr pid i s l s' :
  forward_losses E cfg tr pid (min_tv_loss cfg) i s = (Ok l, s') ->
  ((tv_mult cfg == 0)%Q ->
     (forall f, forward_losses (with_tv_loss E f) cfg tr pid (min_tv_loss cfg) i s =
                (Ok l, s')) /\
     (tv_loss_w l == Qmax 0 (min_tv_loss cfg))%Q /\
     (loss l == det_loss l + nps_loss_w l + Qmax 0 (min_tv_loss cfg))%Q /\
     ((0 <= min_tv_loss cfg)%Q -> (tv_loss_w l == min_tv_loss cfg)%Q)) /\
  ((nps_mult cfg == 0)%Q ->
     (forall f, forward_losses (with_nps_loss E f) cfg tr pid (min_tv_loss cfg) i s =
                (Ok l, s')) /\
     (nps_loss_w l == 0)%Q /\
     (loss l == det_loss l + tv_loss_w l)%Q).
Proof.
  intros Hrun.
  destruct (wp_returns _ _ _ _ _ _
              (forward_losses_spec E cfg tr pid (min_tv_loss cfg) i s) Hrun)
    as (_ & _ & p & r & _ & _ & output & wx & wn & wt & _ & Hnps & Htv & Hsum & _).
  split.
  - intros Hz.
    assert (tv_loss_w l == Qmax 0 (min_tv_loss cfg))%Q as Hterm.
    { rewrite Htv. apply Q.max_compat; [|done]. rewrite Hz. ring. }
    split; [|split; [done|split]].
    + intros f. rewrite forward_losses_skips_tv; [done|]. by apply Qeq_bool_iff.
    + rewrite Hsum, Hterm. reflexivity.
    + intros Hfloor. rewrite Hterm. by apply Q.max_r.
  - intros Hz.
    assert (nps_loss_w l == 0)%Q as Hterm by (rewrite Hnps, Hz; ring).
    split; [|split; [done|]].
    + intros f. rewrite forward_losses_skips_nps; [done|]. by apply Qeq_bool_iff.
    + rewrite Hsum, Hterm. ring.
Qed.

End Claims.

(** * The statements on the small instance *)




Lemma loss_target_dispatch_witness :
  cfg_loss_target Example.constructed = TargetStr "obj * cls" /\
  cfg_loss_target
    (train Example.collaborators Example.config Example.trainer Example.constructed).2 =
    TargetFn RuleObjCls.
Proof.
  split; [reflexivity|].
  apply (proj1 (proj2 (loss_target_dispatch Example.collaborators Example.config
                          Example.trainer Example.constructed "obj * cls" eq_refl))).
  reflexivity.
Defined.

(** C6 as stated fails on a rate too small for [eps].  From a rate of 1e-9
    and 52 epochs of the same mean loss, the first sets the best value and
    the next 51 exceed the patience of 50: the scheduler counts the breach
    (its counter is back to zero) and the rate is what it was. *)
Lemma plateau_tiny_rate_not_reduced :
  ReduceLROnPlateau.rates (ReduceLROnPlateau.init 50) (1 # 1000000000) (repeat 1%Q 52) =
    repeat (1 # 1000000000) 52 /\
  ReduceLROnPlateau.num_bad_epochs
    (ReduceLROnPlateau.feed (ReduceLROnPlateau.init 50) (1 # 1000000000) (repeat 1%Q 51)).1 = 50%nat /\
  ReduceLROnPlateau.num_bad_epochs
    (ReduceLROnPlateau.feed (ReduceLROnPlateau.init 50) (1 # 1000000000) (repeat 1%Q 52)).1 = 0%nat.
Proof. by vm_compute. Qed.

Lemma epoch_mean_feeds_plateau_scheduler_witness :
  exists o' sch' s' m,
    opt_params Example.optimizer = [1%nat] /\
    train_epoch Example.collaborators Example.config Example.trainer "runs/patches" 1 0
      (Example.optimizer, ReduceLROnPlateau.init 50) Example.ready =
      (Ok (o', sch'), s') /\
    (m == Qsum (epoch_totals Example.collaborators Example.config Example.trainer 1 0
                  Example.optimizer Example.ready) / 16)%Q /\
    (sch', lr o') = ReduceLROnPlateau.step (ReduceLROnPlateau.init 50) (3 # 100) m.
Proof.
  eassert (train_epoch Example.collaborators Example.config Example.trainer
             "runs/patches" 1 0
             (Example.optimizer, ReduceLROnPlateau.init 50) Example.ready =
           (Ok (_, _), _)) as H by (vm_compute; reflexivity).
  destruct (epoch_mean_feeds_plateau_scheduler Example.collaborators Example.config
              Example.trainer "runs/patches" 1 0 Example.optimizer _ _ _ _ _ eq_refl H)
    as ((_ & _ & m & Hm & Hstep) & _).
  eexists _, _, _, m. split; [reflexivity|]. split; [exact H|]. by split.
Defined.

Lemma one_patch_image_per_epoch_witness :
  exists o' sch' s' p evs,
    opt_params Example.optimizer = [1%nat] /\
    train_epoch Example.collaborators Example.config Example.trainer "runs/patches" 1 0
      (Example.optimizer, ReduceLROnPlateau.init 50) Example.ready =
      (Ok (o', sch'), s') /\
    heap s' !! 1%nat = Some p /\ log s' = log Example.ready ++ evs /\
    saved_patches evs = [("runs/patches/p_epoch_0.jpg"%string, p_data p)].
Proof.
  eassert (train_epoch Example.collaborators Example.config Example.trainer
             "runs/patches" 1 0
             (Example.optimizer, ReduceLROnPlateau.init 50) Example.ready =
           (Ok (_, _), _)) as H by (vm_compute; reflexivity).
  destruct (one_patch_image_per_epoch Example.collaborators Example.config
              Example.trainer "runs/patches" 1 0 Example.optimizer _ _ _ _ _ eq_refl H)
    as ((p & evs & Hp & _ & Hlog & Hsaved) & _).
  eexists _, _, _, p, evs. split; [reflexivity|]. split; [exact H|]. by repeat split.
Defined.

Lemma metrics_every_15_batches_witness :
  exists o' ep' s',
    opt_params Example.optimizer = [1%nat] /\
    batch_step Example.collaborators Example.config Example.trainer 1
      (min_tv_loss Example.config) 1 15 (Example.optimizer, 0%Q) Example.ready =
      (Ok (o', ep'), s') /\
    steps_of "total_loss" (log s') = [31%nat] /\
    StronglySorted lt (run_steps 16 16 2).
Proof.
  eassert (batch_step Example.collaborators Example.config Example.trainer 1
             (min_tv_loss Example.config) 1 15 (Example.optimizer, 0%Q) Example.ready =
           (Ok (_, _), _)) as H by (vm_compute; reflexivity).
  destruct (metrics_every_15_batches Example.collaborators Example.config
              Example.trainer 1 _ 1 15 Example.optimizer _ _ _ _ _ eq_refl H)
    as ((l & s1 & p & pre & post & _ & _ & Hlog & Hpre & Hpost) & Hrun).
  eexists _, _, _. split; [reflexivity|]. split; [exact H|]. split.
  - rewrite Hlog. change (log Example.ready) with (@nil Event).
    rewrite app_nil_l, !steps_of_app.
    by rewrite (steps_of_silent _ pre Hpre), (steps_of_silent _ post Hpost).
  - apply (run_steps_sorted 16 16 2). lia.
Defined.

(** C10 as stated fails on a negative floor.  With a zero TV weight and
    [min_tv_loss = -1] the smoothness term of the batch is 0, not the
    floor, and the total is the detection and printability terms alone. *)
Lemma zero_tv_weight_negative_floor :
  exists l s',
    forward_losses Example.collaborators Example.config_no_tv Example.trainer 1
      (min_tv_loss Example.config_no_tv) 0 Example.ready = (Ok l, s') /\
    (tv_mult Example.config_no_tv == 0)%Q /\
    min_tv_loss Example.config_no_tv = (-1 # 1)%Q /\
    tv_loss_w l = 0%Q /\
    ~ (tv_loss_w l == min_tv_loss Example.config_no_tv)%Q /\
    loss l = (det_loss l + nps_loss_w l + 0)%Q.
Proof. eexists _, _. split; [vm_compute; reflexivity|]. by vm_compute. Qed.

Lemma zero_weight_skips_loss_witness :
  exists l s',
    forward_losses Example.collaborators Example.config_unweighted Example.trainer 1
      (min_tv_loss Example.config_unweighted) 0 Example.ready = (Ok l, s') /\
    (tv_mult Example.config_unweighted == 0)%Q /\
    (nps_mult Example.config_unweighted == 0)%Q /\
    (tv_loss_w l == 1 # 10)%Q /\ (nps_loss_w l == 0)%Q.
Proof.
  eassert (forward_losses Example.collaborators Example.config_unweighted
             Example.trainer 1 (min_tv_loss Example.config_unweighted) 0 Example.ready =
           (Ok _, _)) as H by (vm_compute; reflexivity).
  destruct (zero_weight_skips_loss _ _ _ _ _ _ _ _ H) as [Htv Hnps].
  destruct (Htv ltac:(reflexivity)) as (_ & _ & _ & Hfloor).
  destruct (Hnps ltac:(reflexivity)) as (_ & Hzero & _).
  eexists _, _. split; [exact H|]. split; [reflexivity|]. split; [reflexivity|].
  split; [apply Hfloor; by vm_compute | exact Hzero].
Defined.

(** * Further properties of the code *)

Section Further.

Context {World OptState : Type} (E : Externals World OptState).

Implicit Types s t : St World.
Implicit Types o : Optimizer OptState.

Ltac wp_step' :=
  lazymatch goal with
  | |- wp (if negb (Qeq_bool _ _) then ext _ else ret _) _ _ _ =>
      apply (wp_weighted E); intros ? ? ? ? ?; simpl
  | _ => wp_step
  end.

(** ** The port search of [init_tensorboard] (lines 96-98) *)

(** The loop returns, from any fuel that covers the ports up to 65535: it
    leaves at a port whose probe said free or at 65535, every port before
    was probed in use, and it printed one line per port left behind. *)
Lemma probe_ports_run d port s :
  (max_port - port <= d)%nat ->
  exists p' s',
    probe_ports E d port s = (Ok p', s') /\
    (port <= p')%nat /\ (p' <= max_port \/ p' = port)%nat /\
    (forall q, (port <= q < p')%nat -> exists w, (is_port_in_use E q w).1 = true) /\
    ((p' < max_port)%nat -> exists w, (is_port_in_use E p' w).1 = false) /\
    same_store s s' /\
    log s' = log s ++ map (fun q => Print (probe_message q)) (seq (S port) (p' - port)).
Proof.
  revert port s. induction d as [|d IH]; intros port s Hd.
  - exists port. simpl. unfold bind, ext.
    destruct (is_port_in_use E port (world s)) as [used w] eqn:Hused. simpl.
    assert ((port <? max_port)%nat = false) as Hlt by (apply Nat.ltb_ge; lia).
    rewrite Hlt, andb_false_r. unfold ret. eexists. split; [reflexivity|].
    split; [done|]. split; [by right|].
    split; [intros q ?; lia|]. split; [intros ?; lia|].
    split; [by repeat split|]. simpl. by rewrite Nat.sub_diag, app_nil_r.
  - simpl. unfold bind at 1. unfold ext at 1.
    destruct (is_port_in_use E port (world s)) as [used w] eqn:Hused. simpl.
    destruct (used && (port <? max_port)%nat) eqn:Hgo.
    + apply andb_true_iff in Hgo as [-> Hlt]. apply Nat.ltb_lt in Hlt.
      unfold bind, emit. simpl.
      destruct (IH (S port)
                  (mkSt w (heap s) (cfg_loss_target s) (cfg_log_dir s)
                     (log s ++ [Print (probe_message (S port))])))
        as (p' & s' & Hrun & Hle & Hmax & Hbefore & Hfree & Hsame & Hlog); [lia|].
      exists p', s'. split; [exact Hrun|].
      split; [lia|]. split; [left; lia|].
      split.
      { intros q Hq. destruct (decide (q = port)) as [->|Hne].
        - exists (world s). by rewrite Hused.
        - apply Hbefore. lia. }
      split; [done|].
      split; [destruct Hsame as (? & ? & ?); by repeat split|].
      rewrite Hlog. simpl. rewrite <- app_assoc. simpl.
      replace (p' - port)%nat with (S (p' - S port)) by lia. done.
    + unfold ret. exists port. eexists. split; [reflexivity|].
      split; [done|]. split; [by right|].
      split; [intros q ?; lia|].
      split.
      { intros Hlt. exists (world s). rewrite Hused. simpl.
        apply andb_false_iff in Hgo as [->|Hge]; [done|].
        apply Nat.ltb_ge in Hge. lia. }
      split; [by repeat split|]. simpl. by rewrite Nat.sub_diag, app_nil_r.
Qed.

Lemma probe_ports_step d port s :
  probe_ports E d port s =
  let '(used, w) := is_port_in_use E port (world s) in
  if used && (port <? max_port)%nat then
    match d with
    | S d' =>
        probe_ports E d' (S port)
          (mkSt w (heap s) (cfg_loss_target s) (cfg_log_dir s)
             (log s ++ [Print (probe_message (S port))]))
    | O => (Ok port, mkSt w (heap s) (cfg_loss_target s) (cfg_log_dir s) (log s))
    end
  else (Ok port, mkSt w (heap s) (cfg_loss_target s) (cfg_log_dir s) (log s)).
Proof.
  destruct d; simpl; unfold bind, ext; destruct (is_port_in_use E port (world s));
    simpl; by destruct (_ && _).
Qed.

Lemma probe_ports_fuel d d' port s :
  (max_port - port <= d)%nat -> (max_port - port <= d')%nat ->
  probe_ports E d port s = probe_ports E d' port s.
Proof.
  revert d' port s. induction d as [|d IH]; intros d' port s Hd Hd'.
  all: rewrite (probe_ports_step d'), probe_ports_step.
  all: destruct (is_port_in_use E port (world s)) as [u w].
  all: destruct (u && (port <? max_port)%nat) eqn:Hgo; [|done].
  all: apply andb_true_iff in Hgo as [_ Hlt]; apply Nat.ltb_lt in Hlt.
  - lia.
  - destruct d' as [|d']; [lia|]. apply IH; lia.
Qed.

(** X1.  When the answer of [is_port_in_use] for a port does not change
    during the search, [init_tensorboard] settles on the first port, from
    the configured one upwards, that is free, or on 65535 when it gets that
    far; a configured port beyond 65535 is taken as it is.  It prints one
    line for each port it leaves, and the line names the port it moves to,
    not the one it found in use.  The search never needs more than the
    [65535 - port] steps the loop has. *)
Theorem tensorboard_port_search (used : nat -> bool) port s :
  (forall q w, (is_port_in_use E q w).1 = used q) ->
  exists p' s',
    probe_ports E (max_port - port) port s = (Ok p', s') /\
    (port <= p')%nat /\ (p' <= max_port \/ p' = port)%nat /\
    (forall q, (port <= q < p')%nat -> used q = true) /\
    ((p' < max_port)%nat -> used p' = false) /\
    same_store s s' /\
    log s' = log s ++ map (fun q => Print (probe_message q)) (seq (S port) (p' - port)) /\
    (forall d, (max_port - port <= d)%nat -> probe_ports E d port s = (Ok p', s')).
Proof.
  intros Hused.
  destruct (probe_ports_run (max_port - port) port s)
    as (p' & s' & Hrun & Hle & Hmax & Hbefore & Hfree & Hsame & Hlog); [done|].
  exists p', s'. split; [done|]. split; [done|]. split; [done|].
  split.
  { intros q Hq. destruct (Hbefore q Hq) as [w Hw]. by rewrite Hused in Hw. }
  split.
  { intros Hlt. destruct (Hfree Hlt) as [w Hw]. by rewrite Hused in Hw. }
  split; [done|]. split; [done|].
  intros d Hd. rewrite <- Hrun. by apply probe_ports_fuel.
Qed.

(** ** [__init__] (lines 52-89) *)

Lemma append_empty (a b : string) : a +:+ b = "" -> a = "" /\ b = "".
Proof. by destruct a. Qed.

Lemma osp_join_nonempty (a b : string) : b <> "" -> osp_join a b <> "".
Proof.
  intros Hb. unfold osp_join.
  destruct (is_abs b); [done|].
  destruct (ends_with_sep a); [intros H; by apply append_empty in H as [_ ?]|].
  destruct (String.eqb a ""); [done|].
  intros H. by apply append_empty in H as [_ H].
Qed.

Lemma stamped_name_nonempty (stamp name : string) : stamp +:+ "_" +:+ name <> "".
Proof. intros H. by apply append_empty in H as [_ H]. Qed.

Lemma add_text_run (xs : list (string * string)) s :
  for_each xs (fun kv => emit (AddText kv.1 kv.2)) s =
  (Ok tt, mkSt (world s) (heap s) (cfg_loss_target s) (cfg_log_dir s)
            (log s ++ map (fun kv => AddText kv.1 kv.2) xs)).
Proof.
  revert s. induction xs as [|x xs IH]; intros s; simpl.
  - unfold ret. rewrite app_nil_r. by destruct s.
  - unfold bind, emit at 1. rewrite IH. simpl. by rewrite <- app_assoc.
Qed.

Lemma init_trace cfg s :
  let stamp := (strftime E (load_weights E (world s)).2).1 in
  let dir := osp_join (cfg_log_dir s) (stamp +:+ "_" +:+ patch_name cfg) in
  exists tr s' p' url,
    init E cfg s = (Ok tr, s') /\
    epoch_length tr = loader_len E /\
    cfg_log_dir s' = dir /\ dir <> "" /\
    (tensorboard_port cfg <= p')%nat /\
    log s' = log s ++
      map (fun q => Print (probe_message q))
        (seq (S (tensorboard_port cfg)) (p' - tensorboard_port cfg)) ++
      [Print ("Tensorboard logger started on " +:+ url); OpenWriter (Some dir)] ++
      map (fun kv => AddText kv.1 kv.2) (cfg_items E cfg dir).
Proof.
  intros stamp dir.
  assert (dir <> "") as Hdir by apply osp_join_nonempty, stamped_name_nonempty.
  subst stamp. destruct (load_weights E (world s)) as [a w] eqn:Hw. simpl in *.
  destruct (strftime E w) as [stamp w1] eqn:Hs. simpl in *.
  unfold init, bind at 1, ext at 1. rewrite Hw.
  unfold bind at 1. rewrite (alloc_all_run E). simpl.
  pose proof (freeze_run E (heap s) a []
                (mkSt w (heap s) (cfg_loss_target s) (cfg_log_dir s) (log s))) as Hf.
  unfold with_heap in *. simpl in *. rewrite !app_nil_r in Hf.
  unfold bind at 1. rewrite Hf. clear Hf.
  unfold bind at 1, ext at 1. simpl. rewrite Hs.
  unfold bind at 1, get_log_dir at 1. simpl.
  unfold bind at 1, set_log_dir at 1. simpl.
  unfold bind at 1, get_log_dir at 1. simpl. fold dir.
  unfold init_tensorboard, bind at 1. unfold bind at 1. unfold bind at 1.
  set (s0 := mkSt w1 _ _ dir _).
  destruct (probe_ports_run (max_port - tensorboard_port cfg) (tensorboard_port cfg) s0)
    as (p' & s1 & Hrun & Hle & _ & _ & _ & (Hh & Ht & Hd) & Hlog); [done|].
  rewrite Hrun. unfold bind at 1, ext at 1.
  destruct (tensorboard_launch E dir p' (world s1)) as [url w2] eqn:Hurl.
  unfold emit at 1. simpl. unfold emit at 1. simpl.
  apply String.eqb_neq in Hdir. rewrite Hdir.
  unfold bind at 1. rewrite add_text_run. simpl. unfold ret.
  eexists _, _, p', url. split; [reflexivity|]. simpl.
  split; [done|]. split; [by rewrite Hd|]. split; [by apply String.eqb_neq|].
  split; [done|]. rewrite Hlog. simpl. by rewrite <- !app_assoc.
Qed.

(** X2.  When [__init__] returns, it has renamed [cfg.log_dir] to
    [join(log_dir, "<time stamp>_<patch name>")], the time being read after
    the weights are loaded; this name is never empty, so the metrics writer
    was opened on that directory and not on the default one.  What it has
    written is, in order: the lines of the port search, the line with the
    address of the tensorboard server, the opening of the writer, and one
    text entry per item of the configuration, [log_dir] being the renamed
    one by then. *)
Theorem init_opens_writer_on_stamped_dir cfg s tr s' :
  init E cfg s = (Ok tr, s') ->
  let stamp := (strftime E (load_weights E (world s)).2).1 in
  let dir := osp_join (cfg_log_dir s) (stamp +:+ "_" +:+ patch_name cfg) in
  exists p' url,
    epoch_length tr = loader_len E /\
    cfg_log_dir s' = dir /\ dir <> "" /\
    (tensorboard_port cfg <= p')%nat /\
    log s' = log s ++
      map (fun q => Print (probe_message q))
        (seq (S (tensorboard_port cfg)) (p' - tensorboard_port cfg)) ++
      [Print ("Tensorboard logger started on " +:+ url); OpenWriter (Some dir)] ++
      map (fun kv => AddText kv.1 kv.2) (cfg_items E cfg dir).
Proof.
  intros Hinit stamp dir.
  destruct (init_trace cfg s) as (tr0 & s0 & p' & url & Hrun & H).
  rewrite Hinit in Hrun. inversion Hrun; subst tr0 s0.
  by exists p', url.
Qed.

(** ** Everything a run writes *)

Lemma wp_and {A} (m : M World A) (Q Q' : A -> St World -> Prop) QE QE' s :
  wp m Q QE s -> wp m Q' QE' s ->
  wp m (fun a s' => Q a s' /\ Q' a s') (fun e s' => QE e s' /\ QE' e s') s.
Proof. unfold wp. by destruct (m s) as [[a|e] s']. Qed.

Lemma forward_losses_trace cfg tr pid floor i s :
  wp (forward_losses E cfg tr pid floor i)
     (fun _ s' =>
        exists img,
          log s' = log s ++
            (if debug_mode cfg
             then [SaveDebugImg (debug_image_path (cfg_log_dir s) i) img] else []))
     (fun _ _ => True) s.
Proof.
  unfold forward_losses, debug_image_path.
  destruct (debug_mode cfg); repeat (progress (repeat wp_step'; simpl in * )); try done.
  all: first [by eexists | exists (mkTensor [] []); by rewrite app_nil_r].
Qed.

Lemma batch_step_trace cfg tr pid floor epoch i o ep s :
  Forall (fun id => id = pid) (opt_params o) ->
  wp (batch_step E cfg tr pid floor epoch i (o, ep))
     (fun _ s' =>
        exists evs, log s' = log s ++ evs /\
          batch_trace E cfg tr (cfg_log_dir s) epoch (lr o) i evs)
     (fun _ _ => True) s.
Proof.
  intros Hids. unfold batch_step. wp_step.
  eapply wp_mono;
    [apply (wp_and _ _ _ _ _ _ (forward_losses_same E cfg tr pid floor i s)
              (forward_losses_trace cfg tr pid floor i s)) | | done].
  intros l s1 [Hsame (img & Hlog)]. simpl in Hsame. wp_step.
  wp_apply (update_patch_spec E tr pid o l s1 Hids) as Hupd Hu; [|done].
  destruct Hu as ([Hk Hlog1] & Hlr & Hps & p & Hp & Hcl).
  wp_step.
  wp_apply (write_metrics_spec E tr pid a l epoch i s' p Hp) as Hwm Hw; [|done].
  destruct Hw as (_ & Hlog2).
  wp_step. unfold batch_trace, batch_events.
  destruct (loader_len E <=? i + 1)%nat; wp_steps.
  all: eexists; (split; [|exists l, (p_data p), img; split; [done | reflexivity]]).
  all: simpl; rewrite Hlog2, Hlog1, Hlog, Hlr, <- ?app_assoc; try done.
  by rewrite app_nil_r.
Qed.

Lemma batch_loop_trace cfg tr pid floor epoch n o s :
  Forall (fun id => id = pid) (opt_params o) ->
  wp (for_range n 0 (batch_step E cfg tr pid floor epoch) (o, 0%Q))
     (fun _ s' =>
        exists bevs, log s' = log s ++ concat bevs /\
          Forall2 (batch_trace E cfg tr (cfg_log_dir s) epoch (lr o)) (seq 0 n) bevs)
     (fun _ _ => True) s.
Proof.
  intros Hids.
  apply wp_for_range with (I := fun i '(o', _) s' =>
    keeps pid s s' /\ lr o' = lr o /\ opt_params o' = opt_params o /\
    exists bevs, log s' = log s ++ concat bevs /\
      Forall2 (batch_trace E cfg tr (cfg_log_dir s) epoch (lr o)) (seq 0 i) bevs).
  - split; [apply keeps_refl|]. do 2 (split; [done|]).
    exists []. simpl. split; [by rewrite app_nil_r | constructor].
  - intros i [o1 ep1] t _ (Hk & Hlr & Hps & bevs & Hlog & Hall).
    assert (Forall (fun id => id = pid) (opt_params o1)) as Hids1 by (by rewrite Hps).
    eapply wp_mono;
      [apply (wp_and _ _ _ _ _ _
                (batch_step_spec E cfg tr pid floor epoch i o1 ep1 t Hids1)
                (batch_step_trace cfg tr pid floor epoch i o1 ep1 t Hids1)) | | done].
    intros [o2 ep2] t' [(Hk2 & Hlr2 & Hps2 & _) (evs & Hlog2 & Htrace)].
    split; [by eapply keeps_trans|]. split; [congruence|]. split; [congruence|].
    exists (bevs ++ [evs]). split.
    + rewrite Hlog2, Hlog, concat_app. simpl. by rewrite app_nil_r, <- app_assoc.
    + rewrite seq_S. apply Forall2_app; [done|]. constructor; [|constructor].
      destruct Hk as (_ & Hd & _). by rewrite <- Hd, <- Hlr.
  - intros [o' ep'] t (_ & _ & _ & H). done.
Qed.

Lemma train_epoch_trace cfg tr patch_dir pid epoch o sch s :
  Forall (fun id => id = pid) (opt_params o) ->
  wp (train_epoch E cfg tr patch_dir pid epoch (o, sch))
     (fun _ s' =>
        exists bevs patch,
          Forall2 (batch_trace E cfg tr (cfg_log_dir s) epoch (lr o))
            (seq 0 (loader_len E)) bevs /\
          Forall in_unit_or_nan (data patch) /\
          log s' = log s ++ [Print (str_nat epoch)] ++ concat bevs ++
            [SavePatchImg (osp_join patch_dir (patch_file_name (patch_name cfg) epoch))
               patch])
     (fun _ _ => True) s.
Proof.
  intros Hids. unfold train_epoch. wp_step. wp_step. wp_step.
  set (s0 := mkSt _ _ _ _ _).
  eapply wp_mono;
    [apply (wp_and _ _ _ _ _ _
              (batch_loop_spec E cfg tr pid (min_tv_loss cfg) epoch (loader_len E) o s0 Hids)
              (batch_loop_trace cfg tr pid (min_tv_loss cfg) epoch (loader_len E) o s0
                 Hids)) | | done].
  intros [o1 ep1] s1 [(_ & _ & _ & Hcl & _) (bevs & Hlog & Hall)]. simpl in *.
  destruct (loader_len E =? 0)%nat eqn:Hlen0; [by apply wp_raise|].
  apply Nat.eqb_neq in Hlen0. destruct (Hcl Hlen0) as (p & Hp & Hunit).
  destruct (ReduceLROnPlateau.step sch (lr o1) _) as [sch' rate].
  wp_steps; simpl in *; [|done].
  assert (p0 = p) as -> by congruence.
  exists bevs, (p_data p). split; [done|]. split; [done|].
  rewrite Hlog. simpl. by rewrite <- !app_assoc.
Qed.

Lemma epochs_trace cfg tr patch_dir pid n o sch s :
  Forall (fun id => id = pid) (opt_params o) ->
  wp (for_range n 0 (train_epoch E cfg tr patch_dir pid) (o, sch))
     (fun _ s' =>
        cfg_log_dir s' = cfg_log_dir s /\
        exists eevs, log s' = log s ++ concat eevs /\
          Forall2 (epoch_trace E cfg tr (cfg_log_dir s) patch_dir) (seq 0 n) eevs)
     (fun _ _ => True) s.
Proof.
  intros Hids.
  apply wp_for_range with (I := fun e '(o', _) s' =>
    keeps pid s s' /\ opt_params o' = opt_params o /\
    exists eevs, log s' = log s ++ concat eevs /\
      Forall2 (epoch_trace E cfg tr (cfg_log_dir s) patch_dir) (seq 0 e) eevs).
  - split; [apply keeps_refl|]. split; [done|].
    exists []. simpl. split; [by rewrite app_nil_r | constructor].
  - intros e [o1 sch1] t _ (Hk & Hps & eevs & Hlog & Hall).
    assert (Forall (fun id => id = pid) (opt_params o1)) as Hids1 by (by rewrite Hps).
    eapply wp_mono;
      [apply (wp_and _ _ _ _ _ _
                (train_epoch_spec E cfg tr patch_dir pid e o1 sch1 t Hids1)
                (train_epoch_trace cfg tr patch_dir pid e o1 sch1 t Hids1)) | | done].
    intros [o2 sch2] t' [(Hk2 & Hps2 & _) (bevs & patch & Hb & Hunit & Hlog2)].
    split; [by eapply keeps_trans|]. split; [congruence|].
    exists (eevs ++ [[Print (str_nat e)] ++ concat bevs ++
                     [SavePatchImg (osp_join patch_dir
                                      (patch_file_name (patch_name cfg) e)) patch]]).
    split.
    + rewrite Hlog2, Hlog, concat_app. simpl. by rewrite app_nil_r, <- !app_assoc.
    + rewrite seq_S. apply Forall2_app; [done|]. constructor; [|constructor].
      exists (lr o1), bevs, patch. destruct Hk as (_ & Hd & _).
      rewrite <- Hd. done.
  - intros [o' sch'] t ((_ & Hd & _) & _ & H). done.
Qed.

(** The whole of what [train] writes when it returns. *)
Lemma train_trace cfg tr s :
  wp (train E cfg tr)
     (fun _ s' =>
        cfg_log_dir s' = cfg_log_dir s /\
        exists eevs,
          log s' = log s ++ setup_events cfg (cfg_log_dir s) ++ concat eevs /\
          Forall2 (epoch_trace E cfg tr (cfg_log_dir s)
                     (osp_join (cfg_log_dir s) "patches"))
            (seq 0 (n_epochs cfg)) eevs)
     (fun _ _ => True) s.
Proof.
  apply (wp_train E); [done | done |].
  intros str r s1 x Hstr Hsel Hh Hx Ht Hd Hl. split; [done|]. intros _.
  wp_step.
  eapply wp_mono;
    [apply (epochs_trace cfg tr _ (length (heap s)) (n_epochs cfg) _ _ s1);
     by repeat constructor | | done].
  intros _ s2 (Hd3 & eevs & Hlog & Hall). apply wp_ret.
  split; [congruence|].
  exists eevs. rewrite Hd in Hall. split; [|done].
  by rewrite Hlog, Hl, <- app_assoc.
Qed.

(** ** Reading the trace *)

Lemma flat_map_concat_Forall2 {A B C} (f : B -> list C) (g : A -> list C)
    (xs : list A) (yss : list (list B)) :
  Forall2 (fun x ys => flat_map f ys = g x) xs yss ->
  flat_map f (concat yss) = flat_map g xs.
Proof.
  induction 1 as [|x ys xs yss Hx _ IH]; simpl; [done|].
  by rewrite flat_map_app, Hx, IH.
Qed.

Lemma flat_map_singleton {A B} (f : A -> B) (l : list A) :
  flat_map (fun x => [f x]) l = map f l.
Proof. induction l as [|x l IH]; simpl; [done | by f_equal]. Qed.

Lemma flat_map_nil {A B} (l : list A) : flat_map (fun _ => @nil B) l = [].
Proof. by induction l. Qed.

Lemma debug_paths_batch cfg tr dir epoch rate i evs :
  batch_trace E cfg tr dir epoch rate i evs ->
  debug_paths evs = if debug_mode cfg then [debug_image_path dir i] else [].
Proof.
  intros (l & patch & img & _ & ->). unfold batch_events, debug_paths, metric_events.
  rewrite !flat_map_app.
  destruct (debug_mode cfg), (i mod 15 =? 0)%nat, (loader_len E <=? i + 1)%nat; done.
Qed.

Lemma debug_paths_epoch cfg tr dir patch_dir epoch evs :
  epoch_trace E cfg tr dir patch_dir epoch evs ->
  debug_paths evs =
    if debug_mode cfg then map (debug_image_path dir) (seq 0 (loader_len E)) else [].
Proof.
  intros (rate & bevs & patch & Hb & _ & ->). unfold debug_paths.
  rewrite !flat_map_app. simpl. rewrite app_nil_r.
  rewrite (flat_map_concat_Forall2 _
             (fun i => if debug_mode cfg then [debug_image_path dir i] else [])
             (seq 0 (loader_len E)) bevs).
  - destruct (debug_mode cfg); [apply flat_map_singleton | apply flat_map_nil].
  - eapply Forall2_impl; [exact Hb|]. intros i evs. apply debug_paths_batch.
Qed.

(** X4.  In debug mode the composite image of a batch is saved under a name
    made of the index of the batch alone, [b_<i>.jpg]: every epoch writes
    the same paths again, one per batch, so the images of an epoch replace
    those of the epoch before.  Without debug mode none is saved. *)
Theorem debug_images_repeat_each_epoch cfg tr s s1 :
  train E cfg tr s = (Ok tt, s1) ->
  exists evs,
    log s1 = log s ++ evs /\
    debug_paths evs =
      (if debug_mode cfg
       then flat_map (fun _ => map (debug_image_path (cfg_log_dir s))
                                 (seq 0 (loader_len E)))
              (seq 0 (n_epochs cfg))
       else []) /\
    (debug_mode cfg = true -> (2 <= n_epochs cfg)%nat -> ~ NoDup (debug_paths evs)).
Proof.
  intros Hrun.
  destruct (wp_returns _ _ _ _ _ _ (train_trace cfg tr s) Hrun)
    as (_ & eevs & Hlog & Hall).
  destruct (wp_returns _ _ _ _ _ _ (train_spec E cfg tr s) Hrun)
    as (_ & _ & _ & Hlen & _).
  eexists. split; [exact Hlog|].
  assert (debug_paths (setup_events cfg (cfg_log_dir s) ++ concat eevs) =
          if debug_mode cfg
          then flat_map (fun _ => map (debug_image_path (cfg_log_dir s))
                                    (seq 0 (loader_len E)))
                 (seq 0 (n_epochs cfg))
          else []) as Hpaths.
  { unfold debug_paths at 1. rewrite flat_map_app.
    replace (flat_map _ (setup_events cfg (cfg_log_dir s))) with (@nil string)
      by (unfold setup_events; by destruct (debug_mode cfg)).
    simpl.
    rewrite (flat_map_concat_Forall2 _
               (fun _ : nat => if debug_mode cfg
                         then map (debug_image_path (cfg_log_dir s))
                                (seq 0 (loader_len E))
                         else [])
               (seq 0 (n_epochs cfg)) eevs).
    - destruct (debug_mode cfg); [done | apply flat_map_nil].
    - eapply Forall2_impl; [exact Hall|]. intros e evs. apply debug_paths_epoch. }
  split; [done|].
  intros Hd Hn. rewrite Hpaths, Hd.
  destruct (n_epochs cfg) as [|[|n]] eqn:Hne; [lia | lia |].
  assert (loader_len E <> 0%nat) as Hl by (apply Hlen; lia).
  destruct (loader_len E) as [|k]; [done|].
  change (seq 0 (S (S n))) with (0 :: 1 :: seq 2 n)%nat. simpl.
  intros Hnd. apply NoDup_cons in Hnd as [Hnotin _].
  apply Hnotin. apply elem_of_app. right. left.
Qed.

Lemma scalars_of_batch tag cfg tr dir epoch rate i evs :
  batch_trace E cfg tr dir epoch rate i evs ->
  (tag = "misc/learning_rate" ->
     scalars_of tag evs = if (i mod 15 =? 0)%nat then [rate] else []) /\
  (tag = "misc/epoch" ->
     scalars_of tag evs =
       if (i mod 15 =? 0)%nat then [inject_Z (Z.of_nat epoch)] else []) /\
  Forall (fun x => Forall in_unit_or_nan (data x)) (patch_snapshots evs) /\
  length (patch_snapshots evs) = (if (i mod 15 =? 0)%nat then 1 else 0)%nat.
Proof.
  intros (l & patch & img & Hunit & ->).
  unfold batch_events, scalars_of, patch_snapshots, metric_events.
  rewrite !flat_map_app.
  destruct (debug_mode cfg), (i mod 15 =? 0)%nat, (loader_len E <=? i + 1)%nat; simpl.
  all: repeat split; try (intros ->; simpl); try done; by repeat constructor.
Qed.

(** X5.  Within an epoch the learning rate is not changed: every
    [misc/learning_rate] value written during the epoch is the rate the
    epoch started with, one for each batch whose index is a multiple of 15,
    and what the scheduler decides at the end of the epoch shows from the
    next epoch on.  Every [misc/epoch] value is the number of the epoch, and
    every patch snapshot given to the writer is a clamped patch: each of
    its values is a number of [[0, 1]] or NaN. *)
Theorem learning_rate_fixed_within_epoch cfg tr dir pid epoch o sch s o' sch' s' :
  opt_params o = [pid] ->
  train_epoch E cfg tr dir pid epoch (o, sch) s = (Ok (o', sch'), s') ->
  exists evs,
    log s' = log s ++ evs /\
    scalars_of "misc/learning_rate" evs =
      map (fun _ => lr o) (emission_indices (loader_len E)) /\
    scalars_of "misc/epoch" evs =
      map (fun _ => inject_Z (Z.of_nat epoch)) (emission_indices (loader_len E)) /\
    length (patch_snapshots evs) = length (emission_indices (loader_len E)) /\
    Forall (fun x => Forall in_unit_or_nan (data x)) (patch_snapshots evs).
Proof.
  intros Hids Hrun.
  assert (Forall (fun id => id = pid) (opt_params o)) as Hall
    by (rewrite Hids; by repeat constructor).
  destruct (wp_returns _ _ _ _ _ _
              (train_epoch_trace cfg tr dir pid epoch o sch s Hall) Hrun)
    as (bevs & patch & Hb & Hunit & Hlog).
  eexists. split; [exact Hlog|].
  unfold scalars_of, patch_snapshots. rewrite !flat_map_app. simpl.
  rewrite !app_nil_r.
  assert (forall (A : Type) (x : A) n,
            flat_map (fun i => if (i mod 15 =? 0)%nat then [x] else []) (seq 0 n) =
            map (fun _ => x) (emission_indices n)) as Hflat.
  { intros A x n. unfold emission_indices.
    induction (seq 0 n) as [|i rest IH]; [done|].
    cbn [flat_map List.filter]. destruct (i mod 15 =? 0)%nat; cbn [map app]; by rewrite IH. }
  split; [|split; [|split]].
  - rewrite <- Hflat. apply flat_map_concat_Forall2.
    eapply Forall2_impl; [exact Hb|]. intros i evs Hi.
    destruct (scalars_of_batch "misc/learning_rate" _ _ _ _ _ _ _ Hi) as (H & _).
    by apply H.
  - rewrite <- Hflat. apply flat_map_concat_Forall2.
    eapply Forall2_impl; [exact Hb|]. intros i evs Hi.
    destruct (scalars_of_batch "misc/epoch" _ _ _ _ _ _ _ Hi) as (_ & H & _).
    by apply H.
  - clear Hlog Hflat. unfold emission_indices. revert Hb.
    generalize (seq 0 (loader_len E)). intros js Hb.
    induction Hb as [|i evs rest bevs Hi _ IH]; [done|].
    cbn [concat List.filter]. rewrite flat_map_app, length_app, IH.
    apply (scalars_of_batch "") in Hi as (_ & _ & _ & Hlen).
    unfold patch_snapshots in Hlen. rewrite Hlen. by destruct (i mod 15 =? 0)%nat.
  - clear Hlog. induction Hb as [|i evs rest bevs Hi _ IH]; simpl; [done|].
    rewrite flat_map_app. apply Forall_app. split; [|done].
    by apply (scalars_of_batch "") in Hi as (_ & _ & H & _).
Qed.

(** ** Edge cases of [train] *)


(** X7.  With [n_epochs = 0], a run of [train] that returns has only set
    up: it has made the directories, dumped the configuration, replaced the
    loss-target string by its rule, created the patch from [patch_src] and
    built the optimizer, which takes a learning rate that is not negative;
    it has written no patch image and no metric, whatever the loader and
    debug mode are. *)
Theorem no_epochs_only_sets_up cfg tr s s' :
  n_epochs cfg = 0%nat ->
  train E cfg tr s = (Ok tt, s') ->
  exists str r x,
    cfg_loss_target s = TargetStr str /\ select_loss_target str = Some r /\
    (0 <= start_lr cfg)%Q /\
    heap s' = heap s ++ [mkParam x true None] /\ patch_of_source cfg x /\
    cfg_loss_target s' = TargetFn r /\
    log s' = log s ++ setup_events cfg (cfg_log_dir s).
Proof.
  intros Hn Hrun.
  assert (wp (train E cfg tr)
            (fun _ s' =>
               exists str r x,
                 cfg_loss_target s = TargetStr str /\
                 select_loss_target str = Some r /\
                 (0 <= start_lr cfg)%Q /\
                 heap s' = heap s ++ [mkParam x true None] /\
                 patch_of_source cfg x /\ cfg_loss_target s' = TargetFn r /\
                 log s' = log s ++ setup_events cfg (cfg_log_dir s))
            (fun _ _ => True) s) as H; [|exact (wp_returns _ _ _ _ _ _ H Hrun)].
  apply (wp_train E); [done | done |].
  intros str r s1 x Hstr Hsel Hh Hx Ht Hd Hl. split; [done|].
  intros Hlr. apply Qle_bool_iff in Hlr. rewrite Hn. simpl. wp_steps.
  by exists str, r, x.
Qed.

(** X8.  [train] can be run once: it replaces the string in
    [cfg.loss_target] by a function, which the dump of line 122 cannot
    write.  After a run of [train] that returned, a second one raises
    [TypeError] there: it has made the directories again and opened
    [cfg.json] for writing, leaving it incomplete; it creates no tensor,
    asks nothing of the world and never reaches the dispatch of the loss
    target. *)
Theorem train_twice_raises cfg tr s s1 :
  train E cfg tr s = (Ok tt, s1) ->
  exists s2,
    train E cfg tr s1 = (Raise TypeError, s2) /\
    heap s2 = heap s1 /\ world s2 = world s1 /\
    cfg_loss_target s2 = cfg_loss_target s1 /\
    log s2 = log s1 ++ failed_setup_events cfg (cfg_log_dir s1).
Proof.
  intros Hrun.
  destruct (wp_returns _ _ _ _ _ _ (train_spec E cfg tr s) Hrun)
    as (_ & _ & (str & r & _ & _ & Ht) & _).
  unfold train, dump_cfg, failed_setup_events, bind, get_log_dir, emit,
    get_loss_target, raise, ret. simpl.
  destruct (debug_mode cfg); simpl; rewrite Ht; simpl.
  all: eexists; split; [reflexivity|]; simpl.
  all: do 3 (split; [done|]); by rewrite <- !app_assoc.
Qed.

(** ** One batch *)


(** X10.  One update of the patch is one Adam step on the gradient of this
    batch's loss alone, then the clamp: [backward] finds no gradient stored
    on the patch and stores the one autograd gives, [optimizer.step] hands
    it to Adam with the current rate and the state kept for the patch,
    [zero_grad] drops it, and line 195 clamps the result.  The patch still
    requires a gradient and holds none afterwards, so the next batch starts
    the same way. *)
Theorem update_is_adam_step_then_clamp tr pid o l s p o' s' :
  opt_params o = [pid] ->
  heap s !! pid = Some p ->
  requires_grad p = true ->
  p_grad p = None ->
  pid ∉ model_params tr ->
  update_patch E tr pid o l s = (Ok o', s') ->
  exists st d,
    adam_update E (state_of o pid) (lr o) (p_data p)
      (autograd E (loss l) pid (world s)).1 = (st, d) /\
    heap s' !! pid = Some (mkParam (clamp_ 0 1 d) true None) /\
    o' = set_state o pid st.
Proof. apply update_patch_effect. Qed.

(** ** The whole of [main] *)

(** X11.  What a run of [main] that returns has written, in order: the
    lines of the port search and of the tensorboard server, the opening of
    the metrics writer on [dir], one text entry per item of the
    configuration; then the directories and the dump of [train], made in
    [dir]; then, epoch by epoch, the number of the epoch, what its batches
    write and its patch image, joined to [dir/patches].  Here [dir] is
    [join(log_dir, "<time stamp>_<patch name>")], and it is still
    [cfg.log_dir] when the run ends. *)
Theorem main_writes_under_stamped_dir cfg w s1 :
  main E cfg (initial_state cfg w) = (Ok tt, s1) ->
  let stamp := (strftime E (load_weights E w).2).1 in
  let dir := osp_join (log_dir cfg) (stamp +:+ "_" +:+ patch_name cfg) in
  exists tr p' url eevs,
    epoch_length tr = loader_len E /\
    cfg_log_dir s1 = dir /\
    log s1 =
      map (fun q => Print (probe_message q))
        (seq (S (tensorboard_port cfg)) (p' - tensorboard_port cfg)) ++
      [Print ("Tensorboard logger started on " +:+ url); OpenWriter (Some dir)] ++
      map (fun kv => AddText kv.1 kv.2) (cfg_items E cfg dir) ++
      setup_events cfg dir ++ concat eevs /\
    Forall2 (epoch_trace E cfg tr dir (osp_join dir "patches"))
      (seq 0 (n_epochs cfg)) eevs.
Proof.
  intros Hmain stamp dir.
  unfold main in Hmain. apply bind_returns in Hmain as (tr & s0 & Hinit & Htrain).
  destruct (init_trace cfg (initial_state cfg w))
    as (tr' & s0' & p' & url & Hinit' & Hlen & Hd & _ & _ & Hlog0).
  rewrite Hinit in Hinit'. inversion Hinit'; subst tr' s0'. clear Hinit'.
  destruct (wp_returns _ _ _ _ _ _ (train_trace cfg tr s0) Htrain)
    as (Hd1 & eevs & Hlog & Hall).
  simpl in Hd, Hlog0. fold stamp in Hd. fold dir in Hd.
  rewrite Hd in *.
  exists tr, p', url, eevs. split; [done|]. split; [done|]. split; [|done].
  rewrite Hlog, Hlog0. fold stamp. fold dir. by rewrite <- !app_assoc.
Qed.

End Further.

(** * The further properties on the small instance *)

Lemma tensorboard_port_search_witness :
  exists p' s',
    probe_ports Example.collaborators (max_port - 6006) 6006 Example.constructed =
      (Ok p', s') /\
    (6006 <= p')%nat /\ ((p' < max_port)%nat -> (p' <? 6008)%nat = false).
Proof.
  destruct (tensorboard_port_search Example.collaborators (fun q => (q <? 6008)%nat)
              6006 Example.constructed)
    as (p' & s' & Hrun & Hle & _ & _ & Hfree & _); [intros q w; reflexivity|].
  by exists p', s'.
Defined.

Lemma init_opens_writer_on_stamped_dir_witness :
  exists tr s',
    init Example.collaborators Example.config (initial_state Example.config 0) =
      (Ok tr, s') /\
    cfg_log_dir s' = "runs/20240101-000000_p".
Proof.
  eassert (init Example.collaborators Example.config (initial_state Example.config 0) =
           (Ok _, _)) as H by (vm_compute; reflexivity).
  destruct (init_opens_writer_on_stamped_dir _ _ _ _ _ H)
    as (p' & url & _ & Hd & _).
  eexists _, _. split; [exact H | exact Hd].
Defined.

Lemma debug_images_repeat_each_epoch_witness :
  exists s1 evs,
    train (Example.collaborators_of 2 false Example.gradient) (Example.config_of "obj" 2 true)
      Example.trainer Example.constructed = (Ok tt, s1) /\
    log s1 = log Example.constructed ++ evs /\
    ~ NoDup (debug_paths evs).
Proof.
  eassert (train (Example.collaborators_of 2 false Example.gradient) (Example.config_of "obj" 2 true)
             Example.trainer Example.constructed = (Ok tt, _)) as H
    by (vm_compute; reflexivity).
  destruct (debug_images_repeat_each_epoch _ _ _ _ _ H) as (evs & Hlog & _ & Hdup).
  eexists _, evs. split; [exact H|]. split; [exact Hlog|].
  apply Hdup; [reflexivity | simpl; lia].
Defined.

Lemma learning_rate_fixed_within_epoch_witness :
  exists o' sch' s' evs,
    opt_params Example.optimizer = [1%nat] /\
    train_epoch Example.collaborators Example.config Example.trainer "runs/patches" 1 0
      (Example.optimizer, ReduceLROnPlateau.init 50) Example.ready =
      (Ok (o', sch'), s') /\
    log s' = log Example.ready ++ evs /\
    scalars_of "misc/learning_rate" evs = [3 # 100; 3 # 100].
Proof.
  eassert (train_epoch Example.collaborators Example.config Example.trainer
             "runs/patches" 1 0
             (Example.optimizer, ReduceLROnPlateau.init 50) Example.ready =
           (Ok (_, _), _)) as H by (vm_compute; reflexivity).
  destruct (learning_rate_fixed_within_epoch Example.collaborators Example.config
              Example.trainer "runs/patches" 1 0 Example.optimizer _ _ _ _ _ eq_refl H)
    as (evs & Hlog & Hlr & _).
  eexists _, _, _, evs. split; [reflexivity|]. split; [exact H|].
  split; [exact Hlog | exact Hlr].
Defined.

Lemma no_epochs_only_sets_up_witness :
  exists s',
    train Example.collaborators (Example.config_of "obj" 0 false) Example.trainer
      Example.constructed = (Ok tt, s') /\
    saved_patches (log s') = [].
Proof.
  eassert (train Example.collaborators (Example.config_of "obj" 0 false)
             Example.trainer Example.constructed = (Ok tt, _)) as H
    by (vm_compute; reflexivity).
  destruct (no_epochs_only_sets_up Example.collaborators
              (Example.config_of "obj" 0 false) Example.trainer Example.constructed
              _ eq_refl H)
    as (str & r & x & _ & _ & _ & _ & _ & _ & Hlog).
  eexists. split; [exact H|]. by rewrite Hlog.
Defined.

Lemma train_twice_raises_witness :
  exists s1 s2,
    train (Example.collaborators_of 1 false Example.gradient)
      (Example.config_of "obj" 1 false) Example.trainer Example.constructed =
      (Ok tt, s1) /\
    train (Example.collaborators_of 1 false Example.gradient)
      (Example.config_of "obj" 1 false) Example.trainer s1 = (Raise TypeError, s2).
Proof.
  eassert (train (Example.collaborators_of 1 false Example.gradient)
             (Example.config_of "obj" 1 false) Example.trainer Example.constructed =
           (Ok tt, _)) as H by (vm_compute; reflexivity).
  destruct (train_twice_raises _ _ _ _ _ H) as (s2 & Hrun & _).
  eexists _, s2. split; [exact H | exact Hrun].
Defined.


Lemma update_is_adam_step_then_clamp_witness :
  exists o' s' st d,
    update_patch Example.collaborators Example.trainer 1 Example.optimizer
      (mkLosses 1 1 0 0) Example.ready = (Ok o', s') /\
    heap s' !! 1%nat = Some (mkParam (clamp_ 0 1 d) true None) /\
    o' = set_state Example.optimizer 1 st.
Proof.
  eassert (update_patch Example.collaborators Example.trainer 1 Example.optimizer
             (mkLosses 1 1 0 0) Example.ready = (Ok _, _)) as H
    by (vm_compute; reflexivity).
  assert (1%nat ∉ model_params Example.trainer) as Hnotin.
  { intros Hin. apply elem_of_cons in Hin as [Hin|Hin]; [discriminate Hin|].
    by apply elem_of_nil in Hin. }
  destruct (update_is_adam_step_then_clamp Example.collaborators Example.trainer 1
              Example.optimizer (mkLosses 1 1 0 0) Example.ready
              (mkParam (full [3; 1; 2] (1 # 2)) true None) _ _
              eq_refl eq_refl eq_refl eq_refl Hnotin H)
    as (st & d & _ & Hp & Ho).
  eexists _, _, st, d. split; [exact H|]. by split.
Defined.

Lemma main_writes_under_stamped_dir_witness :
  exists s1,
    main (Example.collaborators_of 1 false Example.gradient) (Example.config_of "obj" 1 false)
      (initial_state (Example.config_of "obj" 1 false) 0) = (Ok tt, s1) /\
    cfg_log_dir s1 = "runs/20240101-000000_p".
Proof.
  eassert (main (Example.collaborators_of 1 false Example.gradient) (Example.config_of "obj" 1 false)
             (initial_state (Example.config_of "obj" 1 false) 0) = (Ok tt, _)) as H
    by (vm_compute; reflexivity).
  destruct (main_writes_under_stamped_dir _ _ _ _ H) as (tr & p' & url & eevs & _ & Hd & _).
  eexists. split; [exact H | exact Hd].
Defined.
